(** * nes-py: the emulation engine

    A shallow embedding of the C++ engine of nes-py:

    - [common.hpp]: the scalar types and the fixed-capacity container
      [static_vector<T, N>];
    - [ppu.hpp]: the state of the picture processing unit and its inline OAM
      register accessors;
    - [emulator.hpp] / [emulator.cpp]: [Core], [Emulator], the 3:1 stepping
      cadence, the per-frame loop, [snapshot] and [restore].

    C++ member functions are functions from the object state to a completion
    (normal return, thrown exception, or undefined behaviour) paired with the
    state the object is left in. *)

From Stdlib Require Import ZArith Lia String.
From stdpp Require Import base decidable option list numbers.

Local Open Scope Z_scope.

(** ** common.hpp *)

Module Common.

(** [typedef uint8_t NES_Byte], [uint16_t NES_Address], [uint32_t NES_Pixel];
    [std::size_t] is the 64-bit unsigned integer of the supported targets. *)
Definition NES_Byte := Z.
Definition NES_Address := Z.
Definition NES_Pixel := Z.
Definition size_t := Z.

Definition is_NES_Byte (z : Z) : Prop := 0 <= z < 2 ^ 8.
Definition is_NES_Address (z : Z) : Prop := 0 <= z < 2 ^ 16.
Definition is_size_t (z : Z) : Prop := 0 <= z < 2 ^ 64.

(** Wrap-around of unsigned arithmetic. *)
Definition wrap8 (z : Z) : NES_Byte := z mod 2 ^ 8.
Definition wrap64 (z : Z) : size_t := z mod 2 ^ 64.

(** Value initialisation [T()] of an element type. *)
Class ValueInit (T : Type) := value_init : T.
#[global] Instance Z_value_init : ValueInit Z := 0.

(** *** Completions of a member function *)

Inductive exception :=
| length_error (what : string).

Inductive completion (A : Type) :=
| Returns (a : A)
| Throws (e : exception)
| Undefined.
Arguments Returns {A} a.
Arguments Throws {A} e.
Arguments Undefined {A}.

(** A member function on an object of state [S] with result type [A]. The
    state component is what the object holds when control leaves the
    function, also when it leaves by an exception. *)
Definition method (S A : Type) : Type := S -> completion A * S.

#[global] Instance method_ret {S} : MRet (method S) :=
  fun A a s => (Returns a, s).

#[global] Instance method_bind {S} : MBind (method S) :=
  fun A B f m s =>
    match m s with
    | (Returns a, s') => f a s'
    | (Throws e, s') => (Throws e, s')
    | (Undefined, s') => (Undefined, s')
    end.

(** [for (x : xs) body(x)] *)
Fixpoint for_each {S A} (xs : list A) (body : A -> method S unit)
  : method S unit :=
  match xs with
  | [] => mret tt
  | x :: xs' => body x ;; for_each xs' body
  end.

(** *** std::array element access

    [operator[]] performs no bounds check: outside [0, N) the access is
    undefined behaviour, which the model reports as [None]. *)

Definition array_load {T} (i : Z) (a : list T) : option T :=
  if decide (0 <= i) then a !! Z.to_nat i else None.

Definition array_store {T} (i : Z) (x : T) (a : list T) : option (list T) :=
  if decide (0 <= i < Z.of_nat (length a))
  then Some (<[Z.to_nat i := x]> a)
  else None.

(** *** static_vector<T, N> *)

Record static_vector (T : Type) (N : size_t) := {
  elems : list T;            (* the std::array<T, N> base *)
  current_size : size_t;
  reserved_size : size_t
}.
Arguments elems {T N} _.
Arguments current_size {T N} _.
Arguments reserved_size {T N} _.

Section static_vector.
Context {T : Type} `{ValueInit T}.
(** The template parameter [N]. *)
Variable N : size_t.

#[local] Abbreviation static_vector := (static_vector T N).

(** [static_vector() : std::array<T, N>() {}] with the default member
    initialisers [current_size{0}] and [reserved_size{N}]. *)
Definition static_vector_new : static_vector :=
  {| elems := replicate (Z.to_nat N) value_init;
     current_size := 0;
     reserved_size := N |}.

Definition push_back (value : T) : method static_vector unit := fun v =>
  if decide (current_size v >= reserved_size v)
  then (Throws (length_error "static_vector: container is full"), v)
  else
    match array_store (current_size v) value (elems v) with
    | Some a =>
        (Returns tt,
         {| elems := a;
            current_size := wrap64 (current_size v + 1);
            reserved_size := reserved_size v |})
    | None => (Undefined, v)
    end.

Definition reserve (new_capacity : size_t) : method static_vector unit := fun v =>
  if decide (new_capacity > N)
  then (Throws (length_error
                  "static_vector: cannot reserve beyond max capacity"), v)
  else
    (Returns tt,
     {| elems := elems v;
        current_size := Z.min (current_size v) new_capacity;
        reserved_size := new_capacity |}).

Definition resize (new_size : size_t) : method static_vector unit := fun v =>
  if decide (new_size > reserved_size v)
  then (Throws (length_error
                  "static_vector: cannot resize beyond reserved capacity"), v)
  else
    (Returns tt,
     {| elems := elems v;
        current_size := new_size;
        reserved_size := reserved_size v |}).

Definition clear : method static_vector unit := fun v =>
  (Returns tt,
   {| elems := elems v; current_size := 0; reserved_size := reserved_size v |}).

(** The range [begin(), end())]: the first [current_size] elements. *)
Definition contents (v : static_vector) : list T :=
  take (Z.to_nat (current_size v)) (elems v).

(** The operations that change the length state, and a client that issues
    any sequence of them, catching the exceptions. *)
Inductive operation :=
| op_push_back (value : T)
| op_reserve (new_capacity : size_t)
| op_resize (new_size : size_t)
| op_clear.

Definition perform (o : operation) : method static_vector unit :=
  match o with
  | op_push_back value => push_back value
  | op_reserve new_capacity => reserve new_capacity
  | op_resize new_size => resize new_size
  | op_clear => clear
  end.

Definition operation_typed (o : operation) : Prop :=
  match o with
  | op_push_back _ | op_clear => True
  | op_reserve n | op_resize n => is_size_t n
  end.

(** Runs the operations in order; returns every completion and the final
    state. *)
Fixpoint perform_all (os : list operation) (v : static_vector)
  : list (completion unit) * static_vector :=
  match os with
  | [] => ([], v)
  | o :: os' =>
      let '(c, v') := perform o v in
      let '(cs, v'') := perform_all os' v' in
      (c :: cs, v'')
  end.

(** The representation invariant. *)
Definition invariant (v : static_vector) : Prop :=
  0 <= current_size v <= reserved_size v
  /\ reserved_size v <= N
  /\ Z.of_nat (length (elems v)) = N.

End static_vector.

Arguments operation T : clear implicits.
Arguments push_back {T N} value v.
Arguments reserve {T N} new_capacity v.
Arguments resize {T N} new_size v.
Arguments clear {T N} v.
Arguments contents {T N} v.
Arguments perform {T N} o v.
Arguments perform_all {T N} os v.
Arguments invariant {T N} v.

(** *** Proof automation *)

(** Closes the side goals of a case of an operation: a bound, a completion
    that is not the one asked for, or an unchanged object. *)
Ltac settle :=
  first [ lia | discriminate | intros; reflexivity | intros; discriminate ].

(** Arithmetic modulo 256 on byte-sized values. *)
Ltac mod256 :=
  unfold wrap8, is_NES_Byte in *; change (2 ^ 8) with 256 in *;
  Z.div_mod_to_equations; lia.

End Common.

(** ** ppu.hpp *)

Module Ppu.
Import Common.

(** The number of visible scan lines (i.e., the height of the screen) *)
Definition VISIBLE_SCANLINES : Z := 240.
(** The number of visible dots per scan line (i.e., the width of the screen) *)
Definition SCANLINE_VISIBLE_DOTS : Z := 256.
(** The number of cycles per scanline *)
Definition SCANLINE_CYCLE_LENGTH : Z := 341.
(** The last cycle of a scan line *)
Definition SCANLINE_END_CYCLE : Z := 341.
(** The last scanline per frame *)
Definition FRAME_END_SCANLINE : Z := 261.

(** [NES_Pixel[VISIBLE_SCANLINES][SCANLINE_VISIBLE_DOTS]], row-major. *)
Definition NESFrameBufferT := list (list NES_Pixel).

(** The function object held in [vblank_callback]. The closures this
    repository stores there are [[&]() { cpu.interrupt(bus,
    CPU::NMI_INTERRUPT); }], built in [Core::initialize] and in the
    [Emulator] constructor; they capture the enclosing object by reference,
    so a closure is identified by the address it captured. [None] is the
    empty [std::function]. *)
Inductive closure :=
| raise_NMI (captured_this : Z).

Inductive State :=
| PRE_RENDER
| RENDER
| POST_RENDER
| VERTICAL_BLANK.

Inductive CharacterPage :=
| LOW
| HIGH.

Record PPU := {
  vblank_callback : option closure;
  sprite_memory : static_vector NES_Byte (64 * 4);
  scanline_sprites : static_vector NES_Byte 8;
  pipeline_state : State;
  cycles : Z;
  scanline : Z;
  is_even_frame : bool;
  is_vblank : bool;
  is_sprite_zero_hit : bool;
  data_address : NES_Address;
  temp_address : NES_Address;
  fine_x_scroll : NES_Byte;
  is_first_write : bool;
  data_buffer : NES_Byte;
  sprite_data_address : NES_Byte;
  is_showing_sprites : bool;
  is_showing_background : bool;
  is_hiding_edge_sprites : bool;
  is_hiding_edge_background : bool;
  is_long_sprites : bool;
  is_interrupting : bool;
  background_page : CharacterPage;
  sprite_page : CharacterPage;
  data_address_increment : NES_Address
}.

(** Assignments to single members. *)
Definition assign_vblank_callback (x : option closure) (p : PPU) : PPU :=
  let 'Build_PPU _ f2 f3 f4 f5 f6 f7 f8 f9 f10 f11 f12 f13 f14 f15 f16 f17
                 f18 f19 f20 f21 f22 f23 f24 := p in
  Build_PPU x f2 f3 f4 f5 f6 f7 f8 f9 f10 f11 f12 f13 f14 f15 f16 f17
            f18 f19 f20 f21 f22 f23 f24.

Definition assign_sprite_memory (x : static_vector NES_Byte (64 * 4)) (p : PPU)
  : PPU :=
  let 'Build_PPU f1 _ f3 f4 f5 f6 f7 f8 f9 f10 f11 f12 f13 f14 f15 f16 f17
                 f18 f19 f20 f21 f22 f23 f24 := p in
  Build_PPU f1 x f3 f4 f5 f6 f7 f8 f9 f10 f11 f12 f13 f14 f15 f16 f17
            f18 f19 f20 f21 f22 f23 f24.

Definition assign_is_vblank (x : bool) (p : PPU) : PPU :=
  let 'Build_PPU f1 f2 f3 f4 f5 f6 f7 _ f9 f10 f11 f12 f13 f14 f15 f16 f17
                 f18 f19 f20 f21 f22 f23 f24 := p in
  Build_PPU f1 f2 f3 f4 f5 f6 f7 x f9 f10 f11 f12 f13 f14 f15 f16 f17
            f18 f19 f20 f21 f22 f23 f24.

Definition assign_is_first_write (x : bool) (p : PPU) : PPU :=
  let 'Build_PPU f1 f2 f3 f4 f5 f6 f7 f8 f9 f10 f11 f12 _ f14 f15 f16 f17
                 f18 f19 f20 f21 f22 f23 f24 := p in
  Build_PPU f1 f2 f3 f4 f5 f6 f7 f8 f9 f10 f11 f12 x f14 f15 f16 f17
            f18 f19 f20 f21 f22 f23 f24.

Definition assign_sprite_data_address (x : NES_Byte) (p : PPU) : PPU :=
  let 'Build_PPU f1 f2 f3 f4 f5 f6 f7 f8 f9 f10 f11 f12 f13 f14 _ f16 f17
                 f18 f19 f20 f21 f22 f23 f24 := p in
  Build_PPU f1 f2 f3 f4 f5 f6 f7 f8 f9 f10 f11 f12 f13 f14 x f16 f17
            f18 f19 f20 f21 f22 f23 f24.

(** [operator[]] of the [std::array] base of a [static_vector]: it indexes
    the whole array and leaves the length state alone. *)
Definition store_elem {N} (i : Z) (x : NES_Byte) (v : static_vector NES_Byte N)
  : option (static_vector NES_Byte N) :=
  a ← array_store i x (elems v);
  Some {| elems := a;
          current_size := current_size v;
          reserved_size := reserved_size v |}.

(** [inline void set_interrupt_callback(std::function<void(void)> cb)] *)
Definition set_interrupt_callback (cb : option closure) : method PPU unit :=
  fun p => (Returns tt, assign_vblank_callback cb p).

(** [inline void set_OAM_address(NES_Byte address)] *)
Definition set_OAM_address (address : NES_Byte) : method PPU unit :=
  fun p => (Returns tt, assign_sprite_data_address address p).

(** [inline NES_Byte get_OAM_data()] *)
Definition get_OAM_data : method PPU NES_Byte := fun p =>
  match array_load (sprite_data_address p) (elems (sprite_memory p)) with
  | Some b => (Returns b, p)
  | None => (Undefined, p)
  end.

(** [inline void set_OAM_data(NES_Byte value)]:
    [sprite_memory[sprite_data_address++] = value;] *)
Definition set_OAM_data (value : NES_Byte) : method PPU unit := fun p =>
  match store_elem (sprite_data_address p) value (sprite_memory p) with
  | Some m =>
      (Returns tt,
       assign_sprite_data_address (wrap8 (sprite_data_address p + 1))
         (assign_sprite_memory m p))
  | None => (Undefined, p)
  end.

(** The 256 cells of OAM. *)
Definition OAM (p : PPU) : list NES_Byte := elems (sprite_memory p).

(** A program writing the bytes [bs] to the OAM data register in order. *)
Definition write_OAM (bs : list NES_Byte) : method PPU unit :=
  for_each bs set_OAM_data.

(** The accesses the CPU makes through the registers OAMADDR and OAMDATA,
    which the constructor binds to these three member functions. *)
Inductive OAM_access :=
| write_OAMADDR (b : NES_Byte)
| read_OAMDATA
| write_OAMDATA (b : NES_Byte).

Definition OAM_access_typed (a : OAM_access) : Prop :=
  match a with
  | write_OAMADDR b | write_OAMDATA b => is_NES_Byte b
  | read_OAMDATA => True
  end.

Definition access (a : OAM_access) : method PPU unit :=
  match a with
  | write_OAMADDR b => set_OAM_address b
  | read_OAMDATA => get_OAM_data ;; mret tt
  | write_OAMDATA b => set_OAM_data b
  end.

(** The state every C++ object of type [PPU] is in by its types alone: the
    scalar members hold values of their types, and the two containers hold
    their [std::array] bases. *)
Definition PPU_typed (p : PPU) : Prop :=
  is_NES_Byte (sprite_data_address p)
  /\ Z.of_nat (length (elems (sprite_memory p))) = 64 * 4
  /\ Z.of_nat (length (elems (scanline_sprites p))) = 8.

(** Modelled from the spec: the body of [PPU::get_status], which ppu.hpp only
    declares and ppu.cpp, not part of this development, defines. The spec:
    reading the
    status register clears the vblank flag and resets the address-latch
    toggle of the two-write scroll/address protocol. The byte returned is the
    status register of the hardware: vblank in bit 7, sprite-zero hit in
    bit 6. *)
Definition get_status : method PPU NES_Byte := fun p =>
  let status :=
    Z.lor (Z.shiftl (Z.b2z (is_sprite_zero_hit p)) 6)
          (Z.shiftl (Z.b2z (is_vblank p)) 7) in
  (Returns status, assign_is_first_write true (assign_is_vblank false p)).

(** The vblank bit of a status byte. *)
Definition status_vblank (status : NES_Byte) : bool := Z.testbit status 7.

(** A PPU as [PPU()] leaves its containers, OAM zeroed and the scanline
    buffer empty; the scalar members, which the constructor does not set,
    are given the value zero. *)
Definition PPU_zeroed : PPU := {|
  vblank_callback := None;
  sprite_memory := static_vector_new (64 * 4);
  scanline_sprites := static_vector_new 8;
  pipeline_state := PRE_RENDER;
  cycles := 0;
  scanline := 0;
  is_even_frame := false;
  is_vblank := false;
  is_sprite_zero_hit := false;
  data_address := 0;
  temp_address := 0;
  fine_x_scroll := 0;
  is_first_write := false;
  data_buffer := 0;
  sprite_data_address := 0;
  is_showing_sprites := false;
  is_showing_background := false;
  is_hiding_edge_sprites := false;
  is_hiding_edge_background := false;
  is_long_sprites := false;
  is_interrupting := false;
  background_page := LOW;
  sprite_page := LOW;
  data_address_increment := 0
|}.

End Ppu.

(** ** emulator.hpp, emulator.cpp *)

Module Emu.
Import Common Ppu.

(** The number of cycles in 1 frame *)
Definition CYCLES_PER_FRAME : Z := 29781.

(** The width of the NES screen in pixels *)
Definition WIDTH : Z := SCANLINE_VISIBLE_DOTS.
(** The height of the NES screen in pixels *)
Definition HEIGHT : Z := VISIBLE_SCANLINES.

(** *** lib_nes_env.cpp: the screen buffer as an array of bytes *)

Inductive byte_order :=
| little_endian
| big_endian.

(** Byte [k], in address order, of a 32-bit pixel in memory. *)
Definition pixel_byte (order : byte_order) (pixel : NES_Pixel) (k : Z) : Z :=
  match order with
  | little_endian => Z.land (Z.shiftr pixel (8 * k)) 255
  | big_endian => Z.land (Z.shiftr pixel (8 * (3 - k))) 255
  end.

(** [reinterpret_cast<uint8_t*>(emu.get_screen_buffer())[offset]]: the
    framebuffer is [HEIGHT] rows of [WIDTH] pixels of 4 bytes each; outside
    it there is no byte to read. *)
Definition framebuffer_byte (order : byte_order) (fb : NESFrameBufferT)
    (offset : Z) : option Z :=
  row ← array_load (offset `div` (WIDTH * 4)) fb;
  pixel ← array_load ((offset `mod` (WIDTH * 4)) `div` 4) row;
  Some (pixel_byte order pixel (offset `mod` 4)).

(** A [py::array_t<uint8_t>] over the framebuffer: its shape, its strides in
    bytes, and its data pointer as a byte offset from the first byte of the
    framebuffer. *)
Record array_view := {
  shape : list Z;
  strides : list Z;
  data : Z
}.

(** The view the binding [screen_buffer] returns. *)
Definition screen_buffer (order : byte_order) : array_view :=
  match order with
  | little_endian =>
      (* On little-endian systems: BGRx -> RGB *)
      {| shape := [HEIGHT; WIDTH; 3];
         strides := [WIDTH * 4; 4; -1];
         data := 2 |}
  | big_endian =>
      (* On big-endian systems: xRGB -> RGB *)
      {| shape := [HEIGHT; WIDTH; 3];
         strides := [WIDTH * 4; 4; 1];
         data := 1 |}
  end.

(** Indexing a strided array: the element at [index] lies at the data
    pointer plus the sum over the axes of index times stride. *)
Fixpoint displacement (index strides : list Z) : Z :=
  match index, strides with
  | i :: index', s :: strides' => i * s + displacement index' strides'
  | _, _ => 0
  end.

Definition element_offset (v : array_view) (index : list Z) : Z :=
  data v + displacement index (strides v).

Definition in_shape (v : array_view) (index : list Z) : Prop :=
  Forall2 (fun i n => 0 <= i < n) index (shape v).

Definition view_element (order : byte_order) (fb : NESFrameBufferT)
    (index : list Z) : option Z :=
  framebuffer_byte order fb (element_offset (screen_buffer order) index).

Section Engine.

(** The classes of main_bus.hpp, cpu.hpp, picture_bus.hpp, cartridge.hpp and
    controller.hpp, which emulator.hpp includes and this development leaves
    abstract, and the values of type [NESFrameBufferT*]. *)
Variables MainBus CPU PictureBus Cartridge Controller FrameBufferPtr : Type.

Record Core := {
  bus : MainBus;
  cpu : CPU;
  ppu : PPU;
  picture_bus : PictureBus
}.

Record Emulator := {
  core : Core;
  cartridge : Cartridge;
  controllers : list Controller;     (* Controller controllers[2] *)
  framebuffer : NESFrameBufferT
}.

(** [this->core = c], the implicit member-wise copy assignment of [Core]:
    the only member of the emulator that is written. *)
Definition assign_core (c : Core) (e : Emulator) : Emulator :=
  {| core := c;
     cartridge := cartridge e;
     controllers := controllers e;
     framebuffer := framebuffer e |}.

Definition assign_controllers (cs : list Controller) (e : Emulator)
  : Emulator :=
  {| core := core e;
     cartridge := cartridge e;
     controllers := cs;
     framebuffer := framebuffer e |}.

(** [&framebuffer], and the two accessors of the abstract classes that the
    emulator forwards to: the RAM behind [bus.get_memory_buffer()] and a
    store through [controllers[port].get_joypad_buffer()]. *)
Variable framebuffer_address : FrameBufferPtr.
Variable MainBus_get_memory_buffer : MainBus -> list NES_Byte.
Variable Controller_joypad_store : NES_Byte -> Controller -> Controller.

(** The machine the orchestration code runs on. The four member functions
    are defined in cpu.cpp and ppu.cpp and abstract here; [read] and [update]
    are plain accesses to the members of the emulator. *)
Class Hardware (M : Type -> Type) := {
  PPU_cycle : FrameBufferPtr -> M unit;  (* ppu.cycle(picture_bus, framebuffer) *)
  CPU_cycle : M unit;                    (* cpu.cycle(bus) *)
  CPU_reset : M unit;                    (* cpu.reset(bus) *)
  PPU_reset : M unit;                    (* ppu.reset() *)
  read : forall {A : Type}, (Emulator -> A) -> M A;
  update : (Emulator -> Emulator) -> M unit
}.

Section orchestration.
Context {M : Type -> Type} `{MRet M, MBind M, Hardware M}.

(** [for (int i = lo; i < hi; i++) body(i)]. [fuel] bounds the number of
    iterations the model follows; the index never passes [hi], so [i++]
    stays within [int] for the bounds used here. *)
Fixpoint for_fuel (fuel : nat) (i hi : Z) (body : Z -> M unit) : M unit :=
  match fuel with
  | O => mret tt
  | S fuel' =>
      if decide (i < hi)
      then body i ;; for_fuel fuel' (i + 1) hi body
      else mret tt
  end.

Definition for_int (lo hi : Z) (body : Z -> M unit) : M unit :=
  for_fuel (Z.to_nat (hi - lo)) lo hi body.

Definition Core_reset : M unit :=
  CPU_reset ;; PPU_reset.

Definition Core_ppu_step (framebuffer : FrameBufferPtr) : M unit :=
  (* 3 PPU steps per CPU step *)
  PPU_cycle framebuffer ;;
  PPU_cycle framebuffer ;;
  PPU_cycle framebuffer.

Definition Core_step (framebuffer : FrameBufferPtr) : M unit :=
  (* 3 PPU steps per CPU step *)
  Core_ppu_step framebuffer ;;
  CPU_cycle.

(** [inline void reset() { core.cpu.reset(core.bus); core.ppu.reset(); }] *)
Definition Emulator_reset : M unit :=
  CPU_reset ;; PPU_reset.

Definition Emulator_step : M unit :=
  (* render a single frame on the emulator *)
  for_int 0 CYCLES_PER_FRAME (fun _ => Core_step framebuffer_address).

Definition Emulator_ppu_step : M unit :=
  for_int 0 CYCLES_PER_FRAME (fun _ => Core_ppu_step framebuffer_address).

(** [inline void snapshot(Core* const core) { *core = this->core; }]. The
    object [*core] lives outside the emulator: the function yields the value
    it is assigned. *)
Definition snapshot : M Core :=
  read core.

(** [inline void restore(const Core* const core) { this->core = *core; }],
    given the value of [*core]. *)
Definition restore (slot : Core) : M unit :=
  update (assign_core slot).

(** [get_screen_buffer()] and [get_memory_buffer()] return pointers to the
    live buffers; the host reads through them. *)
Definition get_screen_buffer : M NESFrameBufferT :=
  read framebuffer.

Definition get_memory_buffer : M (list NES_Byte) :=
  read (fun e => MainBus_get_memory_buffer (bus (core e))).

(** [*get_controller(port) = b], a store by the host through the pointer
    [controllers[port].get_joypad_buffer()]. The two ports exist in every
    emulator; a state without them is left alone. *)
Definition set_controller (port : Z) (b : NES_Byte) : M unit :=
  update (fun e =>
    match array_load port (controllers e) with
    | Some c =>
        assign_controllers
          (<[Z.to_nat port := Controller_joypad_store b c]> (controllers e)) e
    | None => e
    end).

(** The host driving the engine (§6 of the spec): for each frame it writes
    one input byte per port, steps, and reads the screen and the RAM. *)
Definition frame (input : NES_Byte * NES_Byte)
  : M (NESFrameBufferT * list NES_Byte) :=
  set_controller 0 input.1 ;;
  set_controller 1 input.2 ;;
  Emulator_step ;;
  screen ← get_screen_buffer;
  ram ← get_memory_buffer;
  mret (screen, ram).

Fixpoint play (inputs : list (NES_Byte * NES_Byte))
  : M (list (NESFrameBufferT * list NES_Byte)) :=
  match inputs with
  | [] => mret []
  | input :: inputs' =>
      o ← frame input;
      os ← play inputs';
      mret (o :: os)
  end.

Definition session (inputs : list (NES_Byte * NES_Byte))
  : M (list (NESFrameBufferT * list NES_Byte)) :=
  Emulator_reset ;; play inputs.

End orchestration.

(** *** The machine as a function, with a record of the calls made *)

Inductive call :=
| call_PPU_cycle (framebuffer : FrameBufferPtr)
| call_CPU_cycle
| call_CPU_reset
| call_PPU_reset.

Definition is_PPU_cycle (c : call) : bool :=
  match c with call_PPU_cycle _ => true | _ => false end.

Definition is_CPU_cycle (c : call) : bool :=
  match c with call_CPU_cycle => true | _ => false end.

Definition count_calls (which : call -> bool) (log : list call) : Z :=
  Z.of_nat (length (filter (fun c => which c = true) log)).

Definition run (A : Type) : Type := Emulator -> A * Emulator * list call.

#[local] Instance run_ret : MRet run :=
  fun A a e => (a, e, []).

#[local] Instance run_bind : MBind run :=
  fun A B f m e =>
    let '(a, e1, log1) := m e in
    let '(b, e2, log2) := f a e1 in
    (b, e2, log1 ++ log2).

(** The behaviour of the four member functions: state transformers of the
    emulator, which a callback bound in the constructor lets them reach
    beyond their own object. Pixels go to the framebuffer the pointer
    designates, the one of the emulator when it is [framebuffer_address].
    [PPU::reset] takes no argument and acts on the PPU. *)
Variable PPU_cycle_fn : FrameBufferPtr -> Emulator -> Emulator.
Variable CPU_cycle_fn : Emulator -> Emulator.
Variable CPU_reset_fn : Emulator -> Emulator.
Variable PPU_reset_fn : PPU -> PPU.

Definition assign_ppu (p : PPU) (e : Emulator) : Emulator :=
  assign_core
    {| bus := bus (core e);
       cpu := cpu (core e);
       ppu := p;
       picture_bus := picture_bus (core e) |} e.

#[local] Instance run_hardware : Hardware run := {|
  PPU_cycle framebuffer := fun e =>
    (tt, PPU_cycle_fn framebuffer e, [call_PPU_cycle framebuffer]);
  CPU_cycle := fun e => (tt, CPU_cycle_fn e, [call_CPU_cycle]);
  CPU_reset := fun e => (tt, CPU_reset_fn e, [call_CPU_reset]);
  PPU_reset := fun e =>
    (tt, assign_ppu (PPU_reset_fn (ppu (core e))) e, [call_PPU_reset]);
  read A f := fun e => (f e, e, []);
  update g := fun e => (tt, g e, [])
|}.

(** *** The machine as a relation

    Nothing is assumed of the four member functions but that a call relates
    the state before it to a state after it. *)

Definition nondet (A : Type) : Type := Emulator -> A -> Emulator -> Prop.

#[local] Instance nondet_ret : MRet nondet :=
  fun A a e a' e' => a' = a /\ e' = e.

#[local] Instance nondet_bind : MBind nondet :=
  fun A B f m e b e' => exists a e1, m e a e1 /\ f a e1 b e'.

Variable PPU_cycle_rel : FrameBufferPtr -> Emulator -> Emulator -> Prop.
Variable CPU_cycle_rel : Emulator -> Emulator -> Prop.
Variable CPU_reset_rel : Emulator -> Emulator -> Prop.
Variable PPU_reset_rel : PPU -> PPU -> Prop.

#[local] Instance nondet_hardware : Hardware nondet := {|
  PPU_cycle framebuffer := fun e _ e' => PPU_cycle_rel framebuffer e e';
  CPU_cycle := fun e _ e' => CPU_cycle_rel e e';
  CPU_reset := fun e _ e' => CPU_reset_rel e e';
  PPU_reset := fun e _ e' =>
    exists p', PPU_reset_rel (ppu (core e)) p' /\ e' = assign_ppu p' e;
  read A f := fun e a e' => a = f e /\ e' = e;
  update g := fun e _ e' => e' = g e
|}.

(** *** [restore] with its completion *)


(** ** Properties of the orchestration *)

Definition result_of {A} (r : A * Emulator * list call) : A := r.1.1.
Definition state_of {A} (r : A * Emulator * list call) : Emulator := r.1.2.
Definition calls_of {A} (r : A * Emulator * list call) : list call := r.2.

(** The functional machine takes one of the runs of the relational one. *)
Definition agrees {A} (f : run A) (r : nondet A) : Prop :=
  forall e, r e (result_of (f e)) (state_of (f e)).

(** The calls of one [Core::step]. *)
Definition cadence (framebuffer : FrameBufferPtr) : list call :=
  [call_PPU_cycle framebuffer; call_PPU_cycle framebuffer;
   call_PPU_cycle framebuffer; call_CPU_cycle].

Lemma run_bind_unfold {A B} (m : run A) (f : A -> run B) (e : Emulator) :
  (m ≫= f) e =
    (result_of (f (result_of (m e)) (state_of (m e))),
     state_of (f (result_of (m e)) (state_of (m e))),
     calls_of (m e) ++ calls_of (f (result_of (m e)) (state_of (m e)))).
Proof.
  unfold mbind, run_bind, result_of, state_of, calls_of.
  destruct (m e) as [[a e1] log1]; simpl.
  destruct (f a e1) as [[b e2] log2]; reflexivity.
Qed.

Lemma assign_core_same (e : Emulator) : assign_core (core e) e = e.
Proof. destruct e; reflexivity. Qed.

(** C3. Every invocation of [Core::step], with any framebuffer and from any
    state, calls [PPU::cycle] three times and then [CPU::cycle] once, in that
    order, and calls nothing else: as a function, the state it leaves is the
    CPU cycle of the third PPU cycle and the calls made are exactly these
    four; as a relation, its executions are exactly the chains of three PPU
    cycles followed by one CPU cycle. *)
Theorem Core_step_cadence (framebuffer : FrameBufferPtr) (e : Emulator) :
  Core_step (M := run) framebuffer e =
    (tt,
     CPU_cycle_fn
       (PPU_cycle_fn framebuffer
          (PPU_cycle_fn framebuffer (PPU_cycle_fn framebuffer e))),
     [call_PPU_cycle framebuffer; call_PPU_cycle framebuffer;
      call_PPU_cycle framebuffer; call_CPU_cycle])
  /\ forall e', Core_step (M := nondet) framebuffer e tt e' <->
       exists e1 e2 e3,
         PPU_cycle_rel framebuffer e e1
         /\ PPU_cycle_rel framebuffer e1 e2
         /\ PPU_cycle_rel framebuffer e2 e3
         /\ CPU_cycle_rel e3 e'.
Proof.
  split; [reflexivity|].
  intros e'. unfold Core_step, Core_ppu_step, mbind, nondet_bind; simpl.
  split.
  - intros ([] & e3 & ([] & e1 & H1 & [] & e2 & H2 & H3) & H4).
    exists e1, e2, e3. auto.
  - intros (e1 & e2 & e3 & H1 & H2 & H3 & H4).
    exists tt, e3. split; [|exact H4].
    exists tt, e1. split; [exact H1|].
    exists tt, e2. split; assumption.
Qed.

(** The frame loop in the functional machine, for any number of iterations
    and any body that makes the same calls from every state. *)
Lemma for_fuel_run (body : run unit) (l : list call) (n : nat) :
  (forall e, calls_of (body e) = l) ->
  forall (i hi : Z) (e : Emulator),
    i + Z.of_nat n = hi ->
    for_fuel (M := run) n i hi (fun _ => body) e =
      (tt, Nat.iter n (fun e => state_of (body e)) e, mjoin (replicate n l)).
Proof.
  intros Hl. induction n as [|n IH]; intros i hi e Hi.
  - reflexivity.
  - cbn [for_fuel]. destruct (decide (i < hi)) as [_|Hge]; [|lia].
    rewrite run_bind_unfold, (IH (i + 1) hi) by lia.
    unfold result_of, state_of, calls_of; cbn [fst snd].
    rewrite Nat.iter_succ_r. f_equal.
    change (mjoin (replicate (S n) l)) with (l ++ mjoin (replicate n l)).
    f_equal. apply Hl.
Qed.

(** The loop leaves by its condition: fuel beyond the trip count is never
    used. *)
Lemma for_fuel_run_enough (body : run unit) (n extra : nat) :
  forall (i hi : Z) (e : Emulator),
    i + Z.of_nat n = hi ->
    for_fuel (M := run) (n + extra) i hi (fun _ => body) e =
    for_fuel (M := run) n i hi (fun _ => body) e.
Proof.
  induction n as [|n IH]; intros i hi e Hi.
  - cbn [Nat.add for_fuel]. destruct extra as [|extra]; [reflexivity|].
    cbn [for_fuel]. destruct (decide (i < hi)); [lia|reflexivity].
  - cbn [Nat.add for_fuel]. destruct (decide (i < hi)) as [_|Hge]; [|lia].
    rewrite !run_bind_unfold. rewrite (IH (i + 1) hi) by lia. reflexivity.
Qed.

Lemma count_calls_app (which : call -> bool) (l1 l2 : list call) :
  count_calls which (l1 ++ l2) = count_calls which l1 + count_calls which l2.
Proof.
  unfold count_calls. rewrite list.filter_app, List.length_app. lia.
Qed.

Lemma count_calls_repeat (which : call -> bool) (l : list call) (n : nat) :
  count_calls which (mjoin (replicate n l)) = Z.of_nat n * count_calls which l.
Proof.
  induction n as [|n IH].
  - reflexivity.
  - change (mjoin (replicate (S n) l)) with (l ++ mjoin (replicate n l)).
    rewrite count_calls_app, IH. lia.
Qed.

Lemma Core_step_calls (framebuffer : FrameBufferPtr) (e : Emulator) :
  calls_of (Core_step (M := run) framebuffer e) = cadence framebuffer.
Proof. reflexivity. Qed.

(** C4. From every state, [Emulator::step] performs [CYCLES_PER_FRAME] =
    29781 invocations of [Core::step] and nothing else: its calls are 29781
    copies of the cadence of one [Core::step] (so 29781 CPU cycles and three
    times as many PPU cycles), the state it leaves is the 29781-fold iterate
    of [Core::step], the loop ends by its constant bound (more fuel changes
    nothing), and the 3 * 29781 dots cover the 341 * 262 dots of an NTSC
    frame. *)
Theorem Emulator_step_fixed_count (e : Emulator) :
  calls_of (Emulator_step (M := run) e) =
    mjoin (replicate (Z.to_nat CYCLES_PER_FRAME) (cadence framebuffer_address))
  /\ count_calls is_CPU_cycle (calls_of (Emulator_step (M := run) e))
     = CYCLES_PER_FRAME
  /\ count_calls is_PPU_cycle (calls_of (Emulator_step (M := run) e))
     = 3 * CYCLES_PER_FRAME
  /\ state_of (Emulator_step (M := run) e) =
       Nat.iter (Z.to_nat CYCLES_PER_FRAME)
         (fun e => state_of (Core_step (M := run) framebuffer_address e)) e
  /\ (forall extra : nat,
        for_fuel (M := run) (Z.to_nat CYCLES_PER_FRAME + extra)
          0 CYCLES_PER_FRAME (fun _ => Core_step framebuffer_address) e
        = Emulator_step (M := run) e)
  /\ SCANLINE_CYCLE_LENGTH * (FRAME_END_SCANLINE + 1) <= 3 * CYCLES_PER_FRAME.
Proof.
  assert (Hn : 0 + Z.of_nat (Z.to_nat (CYCLES_PER_FRAME - 0)) = CYCLES_PER_FRAME)
    by (unfold CYCLES_PER_FRAME; lia).
  assert (Hn' : Z.of_nat (Z.to_nat CYCLES_PER_FRAME) = CYCLES_PER_FRAME)
    by (unfold CYCLES_PER_FRAME; lia).
  assert (Hrun := for_fuel_run (Core_step framebuffer_address)
                    (cadence framebuffer_address)
                    (Z.to_nat (CYCLES_PER_FRAME - 0))
                    (Core_step_calls framebuffer_address)
                    0 CYCLES_PER_FRAME e Hn).
  unfold Emulator_step, for_int. rewrite Hrun.
  rewrite Z.sub_0_r in *.
  unfold calls_of, state_of; cbn [fst snd].
  rewrite !count_calls_repeat, Hn'.
  assert (Hcpu : count_calls is_CPU_cycle (cadence framebuffer_address) = 1)
    by reflexivity.
  assert (Hppu : count_calls is_PPU_cycle (cadence framebuffer_address) = 3)
    by reflexivity.
  rewrite Hcpu, Hppu.
  split; [reflexivity|].
  split; [lia|].
  split; [lia|].
  split; [reflexivity|].
  split.
  - intros extra.
    rewrite for_fuel_run_enough by (rewrite Hn'; lia).
    exact Hrun.
  - unfold SCANLINE_CYCLE_LENGTH, FRAME_END_SCANLINE, CYCLES_PER_FRAME. lia.
Qed.

(** C1. [snapshot] immediately followed by [restore] of the value it took
    leaves the emulator exactly as it was (the whole [Core]: CPU registers,
    PPU state with its timing, the bus with its RAM and dispatch tables) and
    calls no component; the frames and RAM the host then observes over any
    inputs, the state reached and the calls made are those of playing from
    the state before the round trip. [restore] writes the members of the live
    [Core] and nothing else of the emulator, and the callback held by the
    saved PPU is the one of the live PPU, which [restore] puts back. *)
Theorem snapshot_restore_roundtrip
    (e : Emulator) (inputs : list (NES_Byte * NES_Byte)) :
  (snapshot (M := run) ≫= restore) e = (tt, e, [])
  /\ ((snapshot (M := run) ≫= restore) ;; play inputs) e
     = play (M := run) inputs e
  /\ (forall slot : Core,
        let e' := state_of (restore (M := run) slot e) in
        core e' = slot
        /\ cartridge e' = cartridge e
        /\ controllers e' = controllers e
        /\ framebuffer e' = framebuffer e)
  /\ vblank_callback (ppu (result_of (snapshot (M := run) e)))
     = vblank_callback (ppu (core e)).
Proof.
  assert (Hround : (snapshot (M := run) ≫= restore) e = (tt, e, [])).
  { rewrite run_bind_unfold.
    unfold snapshot, restore, result_of, state_of, calls_of; cbn.
    rewrite assign_core_same. reflexivity. }
  split; [exact Hround|].
  split.
  - rewrite run_bind_unfold, Hround.
    unfold result_of, state_of, calls_of; cbn [fst snd app].
    destruct (play (M := run) inputs e) as [[os e1] log]; reflexivity.
  - split; [|reflexivity].
    intros slot e'. subst e'. repeat split.
Qed.


(** *** The functional machine is a run of the relational one *)

Section graphs.

(** The relations hold of what the functions compute. *)
Hypothesis PPU_cycle_graph :
  forall framebuffer e, PPU_cycle_rel framebuffer e (PPU_cycle_fn framebuffer e).
Hypothesis CPU_cycle_graph : forall e, CPU_cycle_rel e (CPU_cycle_fn e).
Hypothesis CPU_reset_graph : forall e, CPU_reset_rel e (CPU_reset_fn e).
Hypothesis PPU_reset_graph : forall p, PPU_reset_rel p (PPU_reset_fn p).

Lemma agrees_ret {A} (a : A) : agrees (mret a) (mret a).
Proof. intros e. split; reflexivity. Qed.

Lemma agrees_bind {A B} (m : run A) (f : A -> run B)
    (r : nondet A) (g : A -> nondet B) :
  agrees m r ->
  (forall a, agrees (f a) (g a)) ->
  agrees (m ≫= f) (r ≫= g).
Proof.
  intros Hm Hf e. rewrite run_bind_unfold.
  exists (result_of (m e)), (state_of (m e)). split; [apply Hm|apply Hf].
Qed.

Lemma agrees_read {A} (f : Emulator -> A) :
  agrees (read (M := run) f) (read (M := nondet) f).
Proof. intros e. split; reflexivity. Qed.

Lemma agrees_update (g : Emulator -> Emulator) :
  agrees (update (M := run) g) (update (M := nondet) g).
Proof. intros e. reflexivity. Qed.

Lemma Core_step_agrees (framebuffer : FrameBufferPtr) :
  agrees (Core_step (M := run) framebuffer)
         (Core_step (M := nondet) framebuffer).
Proof.
  unfold Core_step, Core_ppu_step.
  repeat (apply agrees_bind; [|intros _]);
    first [intros e; apply PPU_cycle_graph | intros e; apply CPU_cycle_graph].
Qed.

Lemma for_fuel_agrees (f : Z -> run unit) (r : Z -> nondet unit) :
  (forall i, agrees (f i) (r i)) ->
  forall (n : nat) (i hi : Z),
    agrees (for_fuel n i hi f) (for_fuel n i hi r).
Proof.
  intros Hbody. induction n as [|n IH]; intros i hi.
  - apply agrees_ret.
  - cbn [for_fuel]. destruct (decide (i < hi)).
    + apply agrees_bind; [apply Hbody|]. intros _. apply IH.
    + apply agrees_ret.
Qed.

Lemma frame_agrees (input : NES_Byte * NES_Byte) :
  agrees (frame (M := run) input) (frame (M := nondet) input).
Proof.
  unfold frame, set_controller, get_screen_buffer, get_memory_buffer.
  apply agrees_bind; [apply agrees_update|intros _].
  apply agrees_bind; [apply agrees_update|intros _].
  apply agrees_bind.
  { apply for_fuel_agrees. intros _. apply Core_step_agrees. }
  intros _.
  apply agrees_bind; [apply agrees_read|intros screen].
  apply agrees_bind; [apply agrees_read|intros ram].
  apply agrees_ret.
Qed.

Lemma play_agrees (inputs : list (NES_Byte * NES_Byte)) :
  agrees (play (M := run) inputs) (play (M := nondet) inputs).
Proof.
  induction inputs as [|input inputs IH]; cbn [play].
  - apply agrees_ret.
  - apply agrees_bind; [apply frame_agrees|intros o].
    apply agrees_bind; [apply IH|intros os].
    apply agrees_ret.
Qed.

(** Every session has a run: the one the functional machine computes. *)
Lemma session_agrees (inputs : list (NES_Byte * NES_Byte)) :
  agrees (session (M := run) inputs) (session (M := nondet) inputs).
Proof.
  unfold session, Emulator_reset.
  apply agrees_bind; [|intros _; apply play_agrees].
  apply agrees_bind; [intros e; apply CPU_reset_graph|intros _].
  intros e. exists (PPU_reset_fn (ppu (core e))).
  split; [apply PPU_reset_graph|reflexivity].
Qed.

End graphs.

(** *** Further properties of the orchestration *)

Lemma calls_bind {A B} (m : run A) (f : A -> run B) (e : Emulator) :
  calls_of ((m ≫= f) e)
  = calls_of (m e) ++ calls_of (f (result_of (m e)) (state_of (m e))).
Proof. rewrite run_bind_unfold. reflexivity. Qed.

Lemma state_bind {A B} (m : run A) (f : A -> run B) (e : Emulator) :
  state_of ((m ≫= f) e) = state_of (f (result_of (m e)) (state_of (m e))).
Proof. rewrite run_bind_unfold. reflexivity. Qed.

Lemma result_bind {A B} (m : run A) (f : A -> run B) (e : Emulator) :
  result_of ((m ≫= f) e) = result_of (f (result_of (m e)) (state_of (m e))).
Proof. rewrite run_bind_unfold. reflexivity. Qed.

Lemma Emulator_step_calls (e : Emulator) :
  calls_of (Emulator_step (M := run) e)
  = mjoin (replicate (Z.to_nat CYCLES_PER_FRAME) (cadence framebuffer_address)).
Proof.
  unfold Emulator_step, for_int.
  rewrite (for_fuel_run (Core_step framebuffer_address)
             (cadence framebuffer_address) _
             (Core_step_calls framebuffer_address) 0 CYCLES_PER_FRAME)
    by (unfold CYCLES_PER_FRAME; lia).
  rewrite Z.sub_0_r. reflexivity.
Qed.

Lemma filter_calls_repeat (which : call -> bool) (l : list call) (n : nat) :
  filter (fun c => which c = true) (mjoin (replicate n l))
  = mjoin (replicate n (filter (fun c => which c = true) l)).
Proof.
  induction n as [|n IH]; [reflexivity|].
  change (mjoin (replicate (S n) l)) with (l ++ mjoin (replicate n l)).
  rewrite list.filter_app, IH. reflexivity.
Qed.

(** X7. [Emulator::ppu_step] advances the PPU alone: from every state it
    makes 3 * 29781 calls of [PPU::cycle] on the emulator's framebuffer and
    no call of [CPU::cycle]; its calls are those of [Emulator::step] with the
    CPU cycles left out, and the state it leaves is the 29781-fold iterate
    of three PPU cycles. *)
Theorem Emulator_ppu_step_calls (e e' : Emulator) :
  calls_of (Emulator_ppu_step (M := run) e)
  = filter (fun c => is_PPU_cycle c = true)
      (calls_of (Emulator_step (M := run) e'))
  /\ count_calls is_CPU_cycle (calls_of (Emulator_ppu_step (M := run) e)) = 0
  /\ count_calls is_PPU_cycle (calls_of (Emulator_ppu_step (M := run) e))
     = 3 * CYCLES_PER_FRAME
  /\ state_of (Emulator_ppu_step (M := run) e)
     = Nat.iter (Z.to_nat CYCLES_PER_FRAME)
         (fun e =>
            PPU_cycle_fn framebuffer_address
              (PPU_cycle_fn framebuffer_address
                 (PPU_cycle_fn framebuffer_address e))) e.
Proof.
  assert (Hn : Z.of_nat (Z.to_nat CYCLES_PER_FRAME) = CYCLES_PER_FRAME)
    by (unfold CYCLES_PER_FRAME; lia).
  pose proof (for_fuel_run (Core_ppu_step framebuffer_address)
                (replicate 3 (call_PPU_cycle framebuffer_address))
                (Z.to_nat (CYCLES_PER_FRAME - 0))
                (fun _ => eq_refl) 0 CYCLES_PER_FRAME e
                ltac:(unfold CYCLES_PER_FRAME; lia)) as Hrun.
  rewrite Z.sub_0_r in Hrun.
  unfold Emulator_ppu_step, for_int. rewrite Z.sub_0_r, Hrun.
  rewrite Emulator_step_calls, filter_calls_repeat.
  unfold calls_of, state_of; cbn [fst snd].
  rewrite !count_calls_repeat, Hn.
  split; [reflexivity|].
  assert (Hcpu : count_calls is_CPU_cycle
                   (replicate 3 (call_PPU_cycle framebuffer_address)) = 0)
    by reflexivity.
  assert (Hppu : count_calls is_PPU_cycle
                   (replicate 3 (call_PPU_cycle framebuffer_address)) = 3)
    by reflexivity.
  rewrite Hcpu, Hppu. split; [lia|]. split; [lia|reflexivity].
Qed.

(** X8. [restore] rolls back the [Core] and nothing else. Whatever the host
    runs between a [snapshot] and the [restore] of its value, the emulator is
    left with the [Core] it had at the snapshot and with the cartridge, the
    controllers and the framebuffer as that run left them; the round trip
    itself calls no component. A [snapshot] right after a [restore] yields
    the value restored, and of two [restore]s in a row the second decides. *)
Theorem restore_rolls_back_core_only {A}
    (prog : run A) (slot slot' : Core) (e : Emulator) :
  let r := (saved ← snapshot; prog ;; restore saved) e in
  state_of r = assign_core (core e) (state_of (prog e))
  /\ calls_of r = calls_of (prog e)
  /\ core (state_of r) = core e
  /\ cartridge (state_of r) = cartridge (state_of (prog e))
  /\ controllers (state_of r) = controllers (state_of (prog e))
  /\ framebuffer (state_of r) = framebuffer (state_of (prog e))
  /\ result_of ((restore (M := run) slot ;; snapshot) e) = slot
  /\ (restore (M := run) slot' ;; restore slot) e
     = restore (M := run) slot e.
Proof.
  intros r.
  assert (Hstate : state_of r = assign_core (core e) (state_of (prog e))).
  { unfold r. rewrite state_bind, state_bind. reflexivity. }
  assert (Hcalls : calls_of r = calls_of (prog e)).
  { unfold r. rewrite calls_bind, calls_bind.
    cbn [snapshot restore read update run_hardware calls_of snd app].
    apply app_nil_r. }
  split; [exact Hstate|]. split; [exact Hcalls|].
  rewrite Hstate. repeat split.
Qed.

Lemma frame_calls (input : NES_Byte * NES_Byte) (e : Emulator) :
  calls_of (frame (M := run) input e)
  = mjoin (replicate (Z.to_nat CYCLES_PER_FRAME) (cadence framebuffer_address)).
Proof.
  unfold frame. rewrite !calls_bind, Emulator_step_calls.
  cbn [set_controller get_screen_buffer get_memory_buffer read update
       run_hardware calls_of snd app mret run_ret].
  apply app_nil_r.
Qed.

Lemma play_calls (inputs : list (NES_Byte * NES_Byte)) :
  forall e : Emulator,
    calls_of (play (M := run) inputs e)
    = mjoin (replicate (length inputs)
               (mjoin (replicate (Z.to_nat CYCLES_PER_FRAME)
                         (cadence framebuffer_address))))
    /\ length (result_of (play (M := run) inputs e)) = length inputs.
Proof.
  induction inputs as [|input inputs IH]; intros e.
  - split; reflexivity.
  - cbn [play length]. rewrite !calls_bind, !result_bind, frame_calls.
    destruct (IH (state_of (frame (M := run) input e))) as [IHc IHl].
    rewrite IHc. split.
    + cbn [mret run_ret calls_of snd]. rewrite app_nil_r. reflexivity.
    + cbn [mret run_ret result_of fst length]. rewrite IHl. reflexivity.
Qed.

(** X9. A session of [N] frames costs the same from every state and for all
    inputs: one [CPU::reset], one [PPU::reset], then [N] times the 29781
    cadences of a frame, that is 29781 * N CPU cycles and three times as
    many PPU cycles; and the host reads one screen and one RAM image per
    frame. *)
Theorem session_cycle_count
    (inputs : list (NES_Byte * NES_Byte)) (e : Emulator) :
  calls_of (session (M := run) inputs e)
  = [call_CPU_reset; call_PPU_reset]
    ++ mjoin (replicate (length inputs)
                (mjoin (replicate (Z.to_nat CYCLES_PER_FRAME)
                          (cadence framebuffer_address))))
  /\ count_calls is_CPU_cycle (calls_of (session (M := run) inputs e))
     = CYCLES_PER_FRAME * Z.of_nat (length inputs)
  /\ count_calls is_PPU_cycle (calls_of (session (M := run) inputs e))
     = 3 * CYCLES_PER_FRAME * Z.of_nat (length inputs)
  /\ length (result_of (session (M := run) inputs e)) = length inputs.
Proof.
  assert (Hn : Z.of_nat (Z.to_nat CYCLES_PER_FRAME) = CYCLES_PER_FRAME)
    by (unfold CYCLES_PER_FRAME; lia).
  unfold session. rewrite calls_bind, result_bind.
  destruct (play_calls inputs (state_of (Emulator_reset (M := run) e)))
    as [Hc Hl].
  rewrite Hc, Hl.
  change (calls_of (Emulator_reset (M := run) e))
    with [call_CPU_reset; call_PPU_reset].
  split; [reflexivity|].
  rewrite !count_calls_app, !count_calls_repeat, Hn.
  assert (Hcpu : count_calls is_CPU_cycle (cadence framebuffer_address) = 1)
    by reflexivity.
  assert (Hppu : count_calls is_PPU_cycle (cadence framebuffer_address) = 3)
    by reflexivity.
  rewrite Hcpu, Hppu.
  change (count_calls is_CPU_cycle [call_CPU_reset; call_PPU_reset]) with 0.
  change (count_calls is_PPU_cycle [call_CPU_reset; call_PPU_reset]) with 0.
  split; [lia|]. split; [lia|reflexivity].
Qed.

(** X10. The input bytes of the two ports are independent: stored in either
    order they leave the same emulator, each in the controller of its own
    port, with the [Core], the cartridge and the framebuffer untouched; and
    an index other than 0 or 1 is outside the array [controllers]. *)
Theorem set_controller_ports_independent
    (b0 b1 : NES_Byte) (c0 c1 : Controller) (e : Emulator) :
  controllers e = [c0; c1] ->
  state_of ((set_controller (M := run) 0 b0 ;; set_controller 1 b1) e)
  = assign_controllers
      [Controller_joypad_store b0 c0; Controller_joypad_store b1 c1] e
  /\ state_of ((set_controller (M := run) 1 b1 ;; set_controller 0 b0) e)
     = state_of ((set_controller (M := run) 0 b0 ;; set_controller 1 b1) e)
  /\ calls_of ((set_controller (M := run) 0 b0 ;; set_controller 1 b1) e) = []
  /\ forall port : Z,
       ~ (0 <= port < 2) -> array_load port (controllers e) = None.
Proof.
  intros Hc.
  assert (H01 : state_of ((set_controller (M := run) 0 b0 ;;
                           set_controller 1 b1) e)
                = assign_controllers
                    [Controller_joypad_store b0 c0;
                     Controller_joypad_store b1 c1] e).
  { rewrite state_bind.
    cbn [set_controller update run_hardware state_of result_of fst snd].
    rewrite Hc. cbn. reflexivity. }
  split; [exact H01|]. split.
  { rewrite H01, state_bind.
    cbn [set_controller update run_hardware state_of result_of fst snd].
    rewrite Hc. cbn. reflexivity. }
  split.
  { rewrite calls_bind. reflexivity. }
  intros port Hout. rewrite Hc. unfold array_load.
  destruct (decide (0 <= port)) as [Hpos|]; [|reflexivity].
  apply lookup_ge_None_2. cbn [length]. lia.
Qed.

End Engine.

(** *** The screen buffer view of lib_nes_env.cpp *)

Lemma screen_buffer_shape (order : byte_order) :
  shape (screen_buffer order) = [HEIGHT; WIDTH; 3].
Proof. destruct order; reflexivity. Qed.

Lemma in_shape_inv (order : byte_order) (index : list Z) :
  in_shape (screen_buffer order) index ->
  exists y x c,
    index = [y; x; c] /\ 0 <= y < HEIGHT /\ 0 <= x < WIDTH /\ 0 <= c < 3.
Proof.
  unfold in_shape. rewrite screen_buffer_shape. intros H.
  inversion H as [|y ? l1 ? Hy H1]; subst.
  inversion H1 as [|x ? l2 ? Hx H2]; subst.
  inversion H2 as [|c ? l3 ? Hc H3]; subst.
  inversion H3; subst. exists y, x, c. auto.
Qed.

(** X11. Every element of the [screen_buffer] view lies inside the
    framebuffer, on either byte order: its byte offset is at least 0 and
    below [HEIGHT * WIDTH * 4], it never addresses the padding byte of a
    pixel (byte 3 on little-endian targets, byte 0 on big-endian ones), and
    two different indices never address the same byte. *)
Theorem screen_buffer_offsets_in_bounds
    (order : byte_order) (index : list Z) :
  in_shape (screen_buffer order) index ->
  0 <= element_offset (screen_buffer order) index < HEIGHT * WIDTH * 4
  /\ element_offset (screen_buffer order) index `mod` 4
     <> match order with little_endian => 3 | big_endian => 0 end
  /\ forall index' : list Z,
       in_shape (screen_buffer order) index' ->
       element_offset (screen_buffer order) index'
       = element_offset (screen_buffer order) index ->
       index' = index.
Proof.
  intros H.
  destruct (in_shape_inv order index H) as (y & x & c & -> & Hy & Hx & Hc).
  assert (Hoff : forall y x c,
             element_offset (screen_buffer order) [y; x; c]
             = match order with
               | little_endian => 2 + (y * 1024 + (x * 4 - c))
               | big_endian => 1 + (y * 1024 + (x * 4 + c))
               end).
  { intros. destruct order; unfold element_offset; cbn; unfold WIDTH,
      SCANLINE_VISIBLE_DOTS; lia. }
  unfold HEIGHT, WIDTH, VISIBLE_SCANLINES, SCANLINE_VISIBLE_DOTS in *.
  rewrite Hoff. split; [destruct order; lia|].
  split; [destruct order; Z.div_mod_to_equations; lia|].
  intros index' H'.
  destruct (in_shape_inv order index' H')
    as (y' & x' & c' & -> & Hy' & Hx' & Hc').
  unfold HEIGHT, WIDTH, VISIBLE_SCANLINES, SCANLINE_VISIBLE_DOTS in *.
  rewrite Hoff. intros Heq.
  assert (y' = y /\ x' = x /\ c' = c) as (-> & -> & ->)
    by (destruct order; lia).
  reflexivity.
Qed.

(** X12. Channel [c] of cell [(y, x)] of the [screen_buffer] view is bits
    [16 - 8c .. 23 - 8c] of the pixel at row [y], column [x] of the
    framebuffer: red, green, blue for a pixel [0x00RRGGBB], and the same on
    little-endian and on big-endian targets. *)
Theorem screen_buffer_rgb
    (order : byte_order) (fb : NESFrameBufferT) (y x c : Z)
    (row : list NES_Pixel) (pixel : NES_Pixel) :
  in_shape (screen_buffer order) [y; x; c] ->
  fb !! Z.to_nat y = Some row ->
  row !! Z.to_nat x = Some pixel ->
  view_element order fb [y; x; c]
  = Some (Z.land (Z.shiftr pixel (16 - 8 * c)) 255)
  /\ view_element little_endian fb [y; x; c]
     = view_element big_endian fb [y; x; c].
Proof.
  intros H Hrow Hpixel. unfold NESFrameBufferT in Hrow.
  destruct (in_shape_inv order _ H) as (? & ? & ? & [= <- <- <-] & Hy & Hx & Hc).
  assert (Hview : forall o,
             view_element o fb [y; x; c]
             = Some (Z.land (Z.shiftr pixel (16 - 8 * c)) 255)).
  { intros o.
    unfold view_element, framebuffer_byte.
    set (offset := element_offset (screen_buffer o) [y; x; c]).
    assert (Hoff : offset
                   = match o with
                     | little_endian => 2 + (y * 1024 + (x * 4 - c))
                     | big_endian => 1 + (y * 1024 + (x * 4 + c))
                     end).
    { unfold offset. destruct o; unfold element_offset; cbn;
        unfold WIDTH, SCANLINE_VISIBLE_DOTS; lia. }
    unfold HEIGHT, WIDTH, VISIBLE_SCANLINES, SCANLINE_VISIBLE_DOTS in *.
    change (256 * 4) with 1024.
    assert (Hr : offset `div` 1024 = y)
      by (rewrite Hoff; destruct o; Z.div_mod_to_equations; lia).
    assert (Hp : (offset `mod` 1024) `div` 4 = x)
      by (rewrite Hoff; destruct o; Z.div_mod_to_equations; lia).
    assert (Hk : offset `mod` 4
                 = match o with
                   | little_endian => 2 - c
                   | big_endian => 1 + c
                   end)
      by (rewrite Hoff; destruct o; Z.div_mod_to_equations; lia).
    rewrite Hr, Hp, Hk. unfold array_load.
    destruct (decide (0 <= y)) as [_|]; [|lia].
    rewrite Hrow. cbn [mbind option_bind].
    destruct (decide (0 <= x)) as [_|]; [|lia].
    rewrite Hpixel. cbn [mbind option_bind].
    f_equal. destruct o; unfold pixel_byte; f_equal; f_equal; lia. }
  split; [apply Hview|]. rewrite !Hview. reflexivity.
Qed.

(** *** The theorems at a concrete machine

    A machine whose abstract classes carry no state and whose member
    functions leave the emulator as it is. *)

#[local] Abbreviation still_emulator :=
  (Build_Emulator unit unit unit unit unit
     (Build_Core unit unit unit tt tt PPU_zeroed tt) tt [tt; tt] []).

(** A [Core] that differs from the one of [still_emulator] in the vblank
    flag of its PPU. *)
#[local] Abbreviation vblank_core :=
  (Build_Core unit unit unit tt tt (assign_is_vblank true PPU_zeroed) tt).


Lemma set_controller_ports_independent_witness :
  controllers unit unit unit unit unit still_emulator = [tt; tt]
  /\ array_load 2 (controllers unit unit unit unit unit still_emulator) = None.
Proof.
  assert (Hc : controllers unit unit unit unit unit still_emulator = [tt; tt])
    by reflexivity.
  split; [exact Hc|].
  destruct (set_controller_ports_independent unit unit unit unit unit unit
              (fun _ c => c) (fun _ e => e) (fun e => e) (fun e => e)
              (fun p => p) 1 128 tt tt still_emulator Hc)
    as (_ & _ & _ & Hout).
  apply Hout. lia.
Defined.

Lemma screen_buffer_offsets_in_bounds_witness :
  in_shape (screen_buffer little_endian) [239; 255; 2]
  /\ 0 <= element_offset (screen_buffer little_endian) [239; 255; 2]
       < HEIGHT * WIDTH * 4.
Proof.
  assert (H : in_shape (screen_buffer little_endian) [239; 255; 2]).
  { unfold in_shape; cbn [screen_buffer shape].
    unfold HEIGHT, WIDTH, VISIBLE_SCANLINES, SCANLINE_VISIBLE_DOTS.
    repeat constructor; lia. }
  split; [exact H|].
  exact (proj1 (screen_buffer_offsets_in_bounds little_endian _ H)).
Defined.

Lemma screen_buffer_rgb_witness :
  in_shape (screen_buffer big_endian) [0; 1; 1]
  /\ view_element big_endian [[0; 11189196]] [0; 1; 1] = Some 187
  /\ view_element little_endian [[0; 11189196]] [0; 1; 1]
     = view_element big_endian [[0; 11189196]] [0; 1; 1].
Proof.
  assert (H : in_shape (screen_buffer big_endian) [0; 1; 1]).
  { unfold in_shape; cbn [screen_buffer shape].
    unfold HEIGHT, WIDTH, VISIBLE_SCANLINES, SCANLINE_VISIBLE_DOTS.
    repeat constructor; lia. }
  split; [exact H|].
  exact (screen_buffer_rgb big_endian [[0; 11189196]] 0 1 1 [0; 11189196]
           11189196 H eq_refl eq_refl).
Defined.

End Emu.

(** ** Properties of static_vector *)

Module CommonFacts.
Import Common.

Section static_vector_facts.
Context {T : Type} `{ValueInit T}.
Variable N : size_t.
Hypothesis N_typed : is_size_t N.

#[local] Abbreviation vector := (static_vector T N).

Lemma array_store_Some (i : Z) (x : T) (a : list T) :
  0 <= i < Z.of_nat (length a) ->
  array_store i x a = Some (<[Z.to_nat i := x]> a).
Proof.
  intros Hi. unfold array_store.
  destruct (decide (0 <= i < Z.of_nat (length a))); [reflexivity|lia].
Qed.

Lemma invariant_new : invariant (static_vector_new N).
Proof.
  unfold invariant, static_vector_new, is_size_t in *; cbn.
  rewrite length_replicate. lia.
Qed.

Lemma push_back_full (x : T) (v : vector) :
  current_size v >= reserved_size v ->
  push_back x v = (Throws (length_error "static_vector: container is full"), v).
Proof.
  intros Hfull. unfold push_back.
  destruct (decide (current_size v >= reserved_size v)); [reflexivity|lia].
Qed.

Lemma push_back_room (x : T) (v : vector) :
  invariant v ->
  current_size v < reserved_size v ->
  push_back x v =
    (Returns tt,
     {| elems := <[Z.to_nat (current_size v) := x]> (elems v);
        current_size := current_size v + 1;
        reserved_size := reserved_size v |}).
Proof.
  intros (Hcur & Hres & Hlen) Hroom. unfold push_back.
  destruct (decide (current_size v >= reserved_size v)); [lia|].
  rewrite array_store_Some by lia.
  unfold wrap64. unfold is_size_t in N_typed.
  rewrite Z.mod_small by lia. reflexivity.
Qed.

Lemma reserve_beyond (n : size_t) (v : vector) :
  n > N ->
  reserve n v =
    (Throws (length_error "static_vector: cannot reserve beyond max capacity"),
     v).
Proof.
  intros Hn. unfold reserve. destruct (decide (n > N)); [reflexivity|lia].
Qed.

Lemma resize_beyond (n : size_t) (v : vector) :
  n > reserved_size v ->
  resize n v =
    (Throws
       (length_error "static_vector: cannot resize beyond reserved capacity"),
     v).
Proof.
  intros Hn. unfold resize.
  destruct (decide (n > reserved_size v)); [reflexivity|lia].
Qed.

(** One operation: the invariant is kept, undefined behaviour is not
    reached, and an exception leaves the object as it was. *)
Lemma perform_invariant (o : operation T) (v : vector) :
  operation_typed o ->
  invariant v ->
  invariant (perform o v).2
  /\ (perform o v).1 <> Undefined
  /\ (forall e, (perform o v).1 = Throws e -> (perform o v).2 = v).
Proof.
  intros Ho Hinv. pose proof Hinv as (Hcur & Hres & Hlen).
  destruct o as [x|n|n|]; cbn [perform operation_typed] in *.
  - destruct (decide (current_size v < reserved_size v)) as [Hroom|Hfull].
    + rewrite push_back_room by assumption.
      unfold invariant; cbn [fst snd elems current_size reserved_size].
      rewrite length_insert.
      repeat split; settle.
    + rewrite push_back_full by lia. cbn [fst snd].
      repeat split; settle.
  - unfold reserve, is_size_t in *.
    destruct (decide (n > N)); unfold invariant;
      cbn [fst snd elems current_size reserved_size]; repeat split; settle.
  - unfold resize, is_size_t in *.
    destruct (decide (n > reserved_size v)); unfold invariant;
      cbn [fst snd elems current_size reserved_size]; repeat split; settle.
  - unfold clear, invariant; cbn [fst snd elems current_size reserved_size].
    repeat split; settle.
Qed.

Lemma perform_all_invariant (os : list (operation T)) :
  Forall operation_typed os ->
  forall v : vector,
    invariant v ->
    invariant (perform_all os v).2
    /\ Forall (fun c => c <> Undefined) (perform_all os v).1.
Proof.
  induction 1 as [|o os Ho _ IH]; intros v Hinv.
  - cbn. split; [exact Hinv|constructor].
  - cbn [perform_all].
    destruct (perform_invariant o v Ho Hinv) as (Hinv' & Hdef & _).
    destruct (perform o v) as [c v'] eqn:Ec. cbn [fst snd] in *.
    specialize (IH v' Hinv').
    destruct (perform_all os v') as [cs v''] eqn:Ecs. cbn [fst snd] in *.
    destruct IH as [IH1 IH2]. split; [exact IH1|].
    constructor; assumption.
Qed.

(** C9. Starting from a freshly constructed [static_vector<T, N>] (or from
    any state that satisfies the invariant), every sequence of [push_back],
    [reserve], [resize] and [clear] keeps
    [current_size <= reserved_size <= N] with the [N] array cells in place,
    and never reaches an out-of-bounds access; [push_back] on a full
    container throws [length_error] and writes nothing; [reserve] beyond [N]
    and [resize] beyond the reserved size throw [length_error] and leave the
    object unchanged. *)
Theorem static_vector_invariant_preserved (os : list (operation T)) :
  Forall operation_typed os ->
  invariant (static_vector_new N)
  /\ (forall v : vector,
        invariant v ->
        let r := perform_all os v in
        current_size r.2 <= reserved_size r.2
        /\ reserved_size r.2 <= N
        /\ invariant r.2
        /\ Forall (fun c => c <> Undefined) r.1)
  /\ (forall (x : T) (v : vector),
        current_size v >= reserved_size v ->
        push_back x v =
          (Throws (length_error "static_vector: container is full"), v))
  /\ (forall (n : size_t) (v : vector),
        n > N ->
        exists what, reserve n v = (Throws (length_error what), v))
  /\ (forall (n : size_t) (v : vector),
        n > reserved_size v ->
        exists what, resize n v = (Throws (length_error what), v)).
Proof.
  intros Hos. split; [exact invariant_new|].
  split.
  { intros v Hinv r. subst r.
    destruct (perform_all_invariant os Hos v Hinv) as [Hinv' Hdef].
    pose proof Hinv' as (Hcur & Hres & _).
    split; [lia|]. split; [lia|]. split; assumption. }
  split; [exact push_back_full|].
  split.
  - intros n v Hn. eexists. apply reserve_beyond. exact Hn.
  - intros n v Hn. eexists. apply resize_beyond. exact Hn.
Qed.

(** Offering values to the container one after the other keeps those that
    fit under the reserved size, in order, and drops the rest. *)
Lemma push_back_all_contents (xs : list T) :
  forall v : vector,
    invariant v ->
    contents (perform_all (map op_push_back xs) v).2
    = take (Z.to_nat (reserved_size v)) (contents v ++ xs)
    /\ reserved_size (perform_all (map op_push_back xs) v).2 = reserved_size v.
Proof.
  induction xs as [|x xs IH]; intros v Hinv;
    pose proof Hinv as (Hcur & Hres & Hlen).
  - cbn. rewrite app_nil_r. split; [|reflexivity].
    unfold contents. rewrite take_take. f_equal. lia.
  - cbn [map perform_all perform].
    destruct (decide (current_size v < reserved_size v)) as [Hroom|Hfull].
    + rewrite push_back_room by assumption.
      set (v' := {| elems := <[Z.to_nat (current_size v) := x]> (elems v);
                    current_size := current_size v + 1;
                    reserved_size := reserved_size v |}).
      assert (Hinv' : invariant v').
      { unfold invariant, v'; cbn. rewrite length_insert. lia. }
      destruct (IH v' Hinv') as [IHc IHr].
      destruct (perform_all (map op_push_back xs) v') as [cs v''].
      cbn [fst snd] in *. rewrite IHc, IHr. split; [|reflexivity].
      f_equal. unfold contents, v'; cbn.
      replace (Z.to_nat (current_size v + 1))
        with (S (Z.to_nat (current_size v))) by lia.
      rewrite (take_S_r _ _ x).
      * rewrite take_insert_ge by lia. rewrite <- app_assoc. reflexivity.
      * apply list_lookup_insert_eq. lia.
    + rewrite push_back_full by lia.
      destruct (IH v Hinv) as [IHc IHr].
      destruct (perform_all (map op_push_back xs) v) as [cs v''].
      cbn [fst snd] in *. rewrite IHc, IHr. split; [|reflexivity].
      assert (Hc : length (contents v) = Z.to_nat (reserved_size v)).
      { unfold contents. rewrite length_take. lia. }
      rewrite !take_app_le by lia. reflexivity.
Qed.

(** *** Further properties of the container *)

(** Pushing values one after the other: the pushes that fit under the
    reserved size return, all later ones throw. *)
Lemma push_back_all_completions (xs : list T) :
  forall v : vector,
    invariant v ->
    (perform_all (map op_push_back xs) v).1
    = replicate
        (Nat.min (length xs) (Z.to_nat (reserved_size v - current_size v)))
        (Returns tt)
      ++ replicate
           (length xs - Z.to_nat (reserved_size v - current_size v))
           (Throws (length_error "static_vector: container is full"))
    /\ current_size (perform_all (map op_push_back xs) v).2
       = Z.min (current_size v + Z.of_nat (length xs)) (reserved_size v).
Proof.
  induction xs as [|x xs IH]; intros v Hinv;
    pose proof Hinv as (Hcur & Hres & Hlen).
  - cbn. split; [reflexivity|lia].
  - cbn [map perform_all perform length].
    destruct (decide (current_size v < reserved_size v)) as [Hroom|Hfull].
    + rewrite push_back_room by assumption.
      set (v' := {| elems := <[Z.to_nat (current_size v) := x]> (elems v);
                    current_size := current_size v + 1;
                    reserved_size := reserved_size v |}).
      assert (Hinv' : invariant v').
      { unfold invariant, v'; cbn. rewrite length_insert. lia. }
      destruct (IH v' Hinv') as [IHc IHs].
      destruct (perform_all (map op_push_back xs) v') as [cs v''].
      cbn [fst snd] in *. rewrite IHc, IHs.
      unfold v'; cbn [current_size reserved_size].
      split; [|lia].
      replace (Nat.min (S (length xs))
                 (Z.to_nat (reserved_size v - current_size v)))
        with (S (Nat.min (length xs)
                   (Z.to_nat (reserved_size v - (current_size v + 1)))))
        by lia.
      replace (S (length xs) - Z.to_nat (reserved_size v - current_size v))%nat
        with (length xs
              - Z.to_nat (reserved_size v - (current_size v + 1)))%nat
        by lia.
      reflexivity.
    + rewrite push_back_full by lia.
      destruct (IH v Hinv) as [IHc IHs].
      destruct (perform_all (map op_push_back xs) v) as [cs v''].
      cbn [fst snd] in *. rewrite IHc, IHs. split; [|lia].
      replace (Z.to_nat (reserved_size v - current_size v)) with 0%nat by lia.
      rewrite !Nat.min_0_r, !Nat.sub_0_r. reflexivity.
Qed.

(** X1. A freshly constructed [static_vector<T, N>] that is offered any
    values through [push_back] accepts the first [N] and refuses every later
    one with [length_error]; the range [begin(), end())] then holds exactly
    the first [N] values offered, in order, and [end()] is
    [min(number offered, N)] elements past [begin()]. *)
Theorem fresh_push_backs (xs : list T) :
  let r := perform_all (map op_push_back xs) (static_vector_new N) in
  r.1 = replicate (Nat.min (length xs) (Z.to_nat N)) (Returns tt)
        ++ replicate (length xs - Z.to_nat N)
             (Throws (length_error "static_vector: container is full"))
  /\ contents r.2 = take (Z.to_nat N) xs
  /\ current_size r.2 = Z.min (Z.of_nat (length xs)) N
  /\ Z.of_nat (length (contents r.2)) = current_size r.2.
Proof.
  intros r.
  destruct (push_back_all_completions xs _ invariant_new) as [Hc Hs].
  destruct (push_back_all_contents xs _ invariant_new) as [Hk _].
  fold r in Hc, Hs, Hk.
  cbn [static_vector_new current_size reserved_size] in Hc, Hs, Hk.
  rewrite Z.sub_0_r in Hc. rewrite Z.add_0_l in Hs.
  change (contents (static_vector_new N) ++ xs) with xs in Hk.
  split; [exact Hc|]. split; [exact Hk|]. split; [exact Hs|].
  rewrite Hk, Hs, length_take. unfold is_size_t in N_typed. lia.
Qed.

(** X2. What an operation can change in the array: the number of cells
    never changes; only [push_back] writes a cell, and only the one at index
    [current_size], so no operation alters an element already in
    [begin(), end())]; and an operation that does not return normally leaves
    the whole object as it was. *)
Theorem perform_frame (o : operation T) (v : vector) :
  length (elems (perform o v).2) = length (elems v)
  /\ (forall i : nat,
        i <> Z.to_nat (current_size v) ->
        elems (perform o v).2 !! i = elems v !! i)
  /\ ((forall x, o <> op_push_back x) -> elems (perform o v).2 = elems v)
  /\ ((perform o v).1 <> Returns tt -> (perform o v).2 = v).
Proof.
  assert (Hpush : forall x : T, ~ (forall y, op_push_back x <> op_push_back y)).
  { intros x Hne. exact (Hne x eq_refl). }
  destruct o as [x|n|n|]; cbn [perform].
  - unfold push_back, array_store.
    destruct (decide (current_size v >= reserved_size v));
      [|destruct (decide (0 <= current_size v < Z.of_nat (length (elems v))))];
      cbn [fst snd elems].
    + repeat split; intros; first [reflexivity | exfalso; eapply Hpush; eauto].
    + split; [apply length_insert|]. split; [|split].
      * intros i Hi. apply list_lookup_insert_ne. congruence.
      * intros Hne. exfalso. eapply Hpush; eauto.
      * intros Hne. congruence.
    + repeat split; intros; first [reflexivity | exfalso; eapply Hpush; eauto].
  - unfold reserve. destruct (decide (n > N)); cbn [fst snd elems];
      repeat split; intros; first [reflexivity | congruence].
  - unfold resize. destruct (decide (n > reserved_size v));
      cbn [fst snd elems];
      repeat split; intros; first [reflexivity | congruence].
  - unfold clear; cbn [fst snd elems].
    repeat split; intros; first [reflexivity | congruence].
Qed.

(** X3. [clear] erases nothing: followed by a [resize] to the size the
    container had, it gives back the very same object, contents included.
    [reserve] below the current size is what loses elements: after reserving
    [a] and then the old reserved size again, the size stays cut at [a]. *)
Theorem clear_keeps_elements (v : vector) :
  invariant v ->
  (clear ;; resize (current_size v)) v = (Returns tt, v)
  /\ forall a : size_t,
       0 <= a <= reserved_size v ->
       exists v',
         (reserve a ;; reserve (reserved_size v)) v = (Returns tt, v')
         /\ current_size v' = Z.min (current_size v) a
         /\ reserved_size v' = reserved_size v
         /\ contents v' = take (Z.to_nat a) (contents v).
Proof.
  intros (Hcur & Hres & Hlen). split.
  - unfold mbind, method_bind, clear, resize; cbn [current_size reserved_size].
    destruct (decide (current_size v > reserved_size v)); [lia|].
    destruct v; reflexivity.
  - intros a Ha.
    unfold mbind, method_bind, reserve; cbn [current_size reserved_size].
    destruct (decide (a > N)); [lia|].
    destruct (decide (reserved_size v > N)); [lia|].
    eexists. split; [reflexivity|].
    cbn [current_size reserved_size elems]. split; [lia|].
    split; [reflexivity|].
    unfold contents; cbn [current_size elems].
    rewrite take_take. f_equal. lia.
Qed.

End static_vector_facts.

(** The container on small inputs. *)

Example push_back_ninth_refused :
  let r := perform_all (map op_push_back [1; 2; 3; 4; 5; 6; 7; 8; 9])
             (static_vector_new 8) in
  r.1 = replicate 8 (Returns tt)
        ++ [Throws (length_error "static_vector: container is full")]
  /\ contents r.2 = [1; 2; 3; 4; 5; 6; 7; 8]
  /\ current_size r.2 = 8.
Proof. repeat split. Qed.

Example reserve_clips_size :
  let r := perform_all [op_push_back 1; op_push_back 2; op_reserve 1;
                        op_push_back 3]
             (static_vector_new 4) in
  current_size r.2 = 1 /\ reserved_size r.2 = 1 /\ contents r.2 = [1]
  /\ elems r.2 = [1; 2; 0; 0].
Proof. repeat split. Qed.

Example reserve_beyond_capacity :
  reserve 5 (static_vector_new (T := Z) 4)
  = (Throws (length_error "static_vector: cannot reserve beyond max capacity"),
     static_vector_new 4).
Proof. reflexivity. Qed.

Example resize_beyond_reserved :
  (perform_all [op_reserve 2; op_resize 3; op_resize 2] (static_vector_new 4)).1
  = [Returns tt;
     Throws
       (length_error "static_vector: cannot resize beyond reserved capacity");
     Returns tt].
Proof. reflexivity. Qed.

Lemma static_vector_invariant_preserved_witness :
  let os := [op_push_back 7; op_push_back 8; op_push_back 9; op_reserve 1;
             op_resize 3; op_reserve 5; op_push_back 4; op_clear;
             op_push_back 6] in
  is_size_t 2
  /\ Forall operation_typed os
  /\ let r := perform_all os (static_vector_new 2) in
     current_size r.2 <= reserved_size r.2
     /\ reserved_size r.2 <= 2
     /\ invariant r.2
     /\ Forall (fun c => c <> Undefined) r.1.
Proof.
  intros os.
  assert (Hn : is_size_t 2) by (unfold is_size_t; lia).
  assert (Hos : Forall operation_typed os)
    by (repeat constructor; unfold is_size_t; lia).
  split; [exact Hn|]. split; [exact Hos|].
  destruct (static_vector_invariant_preserved 2 Hn os Hos) as (Hnew & Hall & _).
  exact (Hall (static_vector_new 2) Hnew).
Defined.

Lemma fresh_push_backs_witness :
  is_size_t 3
  /\ contents
       (perform_all (map op_push_back [5; 6; 7; 8; 9]) (static_vector_new 3)).2
     = [5; 6; 7].
Proof.
  assert (Hn : is_size_t 3) by (unfold is_size_t; lia).
  split; [exact Hn|].
  exact (proj1 (proj2 (fresh_push_backs 3 Hn [5; 6; 7; 8; 9]))).
Defined.

Lemma clear_keeps_elements_witness :
  let v := (perform_all [op_push_back 1; op_push_back 2]
              (static_vector_new 4)).2 in
  invariant v
  /\ (clear ;; resize (current_size v)) v = (Returns tt, v).
Proof.
  intros v.
  assert (Hn : is_size_t 4) by (unfold is_size_t; lia).
  assert (Hinv : invariant v).
  { apply (perform_all_invariant 4 Hn); [repeat constructor|].
    exact (invariant_new 4 Hn). }
  split; [exact Hinv|].
  exact (proj1 (clear_keeps_elements 4 v Hinv)).
Defined.

End CommonFacts.

(** ** Properties of the PPU registers *)

Module PpuFacts.
Import Common Ppu.

Lemma method_bind_returns {S A B} (m : method S A) (f : A -> method S B)
    (s s' : S) (a : A) :
  m s = (Returns a, s') -> (m ≫= f) s = f a s'.
Proof. intros Hm. unfold mbind, method_bind. rewrite Hm. reflexivity. Qed.

Lemma set_OAM_address_typed (address : NES_Byte) (p : PPU) :
  is_NES_Byte address ->
  PPU_typed p ->
  PPU_typed (set_OAM_address address p).2
  /\ sprite_data_address (set_OAM_address address p).2 = address
  /\ OAM (set_OAM_address address p).2 = OAM p.
Proof.
  intros Ha (Hp & Hoam & Hbuf).
  destruct p; unfold PPU_typed, OAM in *;
    cbn [snd set_OAM_address assign_sprite_data_address sprite_data_address
         sprite_memory scanline_sprites] in *.
  split; [exact (conj Ha (conj Hoam Hbuf))|split; reflexivity].
Qed.

Lemma get_OAM_data_defined (p : PPU) :
  PPU_typed p ->
  exists b,
    get_OAM_data p = (Returns b, p)
    /\ OAM p !! Z.to_nat (sprite_data_address p) = Some b.
Proof.
  intros (Hp & Hoam & _). unfold get_OAM_data, array_load, OAM.
  destruct (decide (0 <= sprite_data_address p)) as [_|Hneg];
    [|unfold is_NES_Byte in Hp; lia].
  destruct (lookup_lt_is_Some_2 (elems (sprite_memory p))
              (Z.to_nat (sprite_data_address p))) as [b Hb].
  { unfold is_NES_Byte in Hp. change (2 ^ 8) with 256 in Hp. lia. }
  exists b. rewrite Hb. split; reflexivity.
Qed.

Lemma set_OAM_data_defined (value : NES_Byte) (p : PPU) :
  PPU_typed p ->
  exists p',
    set_OAM_data value p = (Returns tt, p')
    /\ PPU_typed p'
    /\ OAM p' = <[Z.to_nat (sprite_data_address p) := value]> (OAM p)
    /\ sprite_data_address p' = wrap8 (sprite_data_address p + 1).
Proof.
  intros (Hp & Hoam & Hbuf). unfold set_OAM_data, store_elem, array_store.
  destruct (decide (0 <= sprite_data_address p
                    < Z.of_nat (length (elems (sprite_memory p)))))
    as [_|Hout]; [|unfold is_NES_Byte in Hp; change (2 ^ 8) with 256 in Hp; lia].
  cbn [mbind option_bind]. eexists. split; [reflexivity|].
  destruct p; unfold PPU_typed, OAM in *;
    cbn [assign_sprite_data_address assign_sprite_memory sprite_data_address
         sprite_memory scanline_sprites elems] in *.
  rewrite length_insert.
  split; [split; [mod256|split; assumption]|split; reflexivity].
Qed.

(** Writing [bs], at most 256 bytes, through the OAM data register from the
    current OAM address: every byte lands at its address modulo 256, the
    other cells keep their values, and the address has advanced by the
    number of bytes modulo 256. *)
Lemma write_OAM_spec (bs : list NES_Byte) :
  forall p : PPU,
    PPU_typed p ->
    (length bs <= 256)%nat ->
    exists p',
      write_OAM bs p = (Returns tt, p')
      /\ PPU_typed p'
      /\ sprite_data_address p'
         = (sprite_data_address p + Z.of_nat (length bs)) mod 256
      /\ (forall (i : nat) (x : NES_Byte),
            bs !! i = Some x ->
            OAM p' !! Z.to_nat ((sprite_data_address p + Z.of_nat i) mod 256)
            = Some x)
      /\ (forall j : nat,
            (forall i : nat,
               (i < length bs)%nat ->
               j <> Z.to_nat ((sprite_data_address p + Z.of_nat i) mod 256)) ->
            OAM p' !! j = OAM p !! j).
Proof.
  induction bs as [|b bs IH]; intros p Hp Hlen.
  - exists p. pose proof Hp as (Ha & _).
    split; [reflexivity|]. split; [exact Hp|].
    split; [cbn [length]; mod256|].
    split; [intros i x Hi; discriminate|intros j _; reflexivity].
  - cbn [length] in Hlen.
    destruct (set_OAM_data_defined b p Hp) as (p1 & Hset & Hp1 & Hoam1 & Ha1).
    destruct (IH p1 Hp1 ltac:(lia)) as (p' & Hw & Hp' & Ha' & Hin & Hout).
    pose proof Hp as (Ha & Hoam & _).
    exists p'. split.
    { unfold write_OAM in *. cbn [for_each].
      rewrite (method_bind_returns _ _ _ _ _ Hset). exact Hw. }
    split; [exact Hp'|]. split.
    { rewrite Ha', Ha1. cbn [length]. mod256. }
    split.
    + intros [|i] x Hi.
      * cbn in Hi. injection Hi as ->.
        replace ((sprite_data_address p + Z.of_nat 0) mod 256)
          with (sprite_data_address p) by mod256.
        rewrite Hout, Hoam1.
        -- apply list_lookup_insert_eq. unfold OAM. mod256.
        -- intros i Hi. rewrite Ha1. intros Heq.
           apply Z2Nat.inj in Heq; mod256.
      * cbn in Hi. rewrite <- (Hin i x Hi). f_equal. f_equal.
        rewrite Ha1. mod256.
    + intros j Hj. rewrite Hout, Hoam1.
      * apply list_lookup_insert_ne.
        specialize (Hj 0%nat ltac:(cbn; lia)).
        intros Heq. apply Hj. rewrite <- Heq. f_equal. mod256.
      * intros i Hi. specialize (Hj (S i) ltac:(cbn; lia)).
        intros Heq. apply Hj. rewrite Heq. f_equal. rewrite Ha1. mod256.
Qed.

Lemma get_OAM_data_state (q : PPU) : (get_OAM_data q).2 = q.
Proof.
  unfold get_OAM_data.
  destruct (array_load (sprite_data_address q) (elems (sprite_memory q)));
    reflexivity.
Qed.

(** C5. After a write of [a] to the OAM address register, 256 writes to the
    OAM data register leave the [i]-th byte written in cell [(a + i) mod 256]:
    OAM holds the 256 bytes in write order from index [a], wrapping from 255
    to 0 (so OAM is the byte sequence itself when [a = 0]), and the address
    is back at [a]. Each data write advances the address by one modulo 256;
    a data read leaves the PPU, and so the address, unchanged. *)
Theorem OAM_write_256 (a : NES_Byte) (bs : list NES_Byte) (p : PPU) :
  PPU_typed p ->
  is_NES_Byte a ->
  length bs = 256%nat ->
  exists p',
    (set_OAM_address a ;; write_OAM bs) p = (Returns tt, p')
    /\ (forall i : nat,
          (i < 256)%nat ->
          OAM p' !! Z.to_nat ((a + Z.of_nat i) mod 256) = bs !! i)
    /\ OAM p' = drop (Z.to_nat (256 - a)) bs ++ take (Z.to_nat (256 - a)) bs
    /\ (a = 0 -> OAM p' = bs)
    /\ sprite_data_address p' = a
    /\ (forall (value : NES_Byte) (q : PPU),
          PPU_typed q ->
          sprite_data_address (set_OAM_data value q).2
          = wrap8 (sprite_data_address q + 1))
    /\ (forall q : PPU, (get_OAM_data q).2 = q).
Proof.
  intros Hp Ha Hlen.
  destruct (set_OAM_address_typed a p Ha Hp) as (Hp0 & Ha0 & _).
  set (p0 := (set_OAM_address a p).2) in *.
  destruct (write_OAM_spec bs p0 Hp0 ltac:(lia))
    as (p' & Hw & Hp' & Ha' & Hin & _).
  rewrite Ha0 in Ha', Hin.
  assert (Hcell : forall i : nat,
             (i < 256)%nat ->
             OAM p' !! Z.to_nat ((a + Z.of_nat i) mod 256) = bs !! i).
  { intros i Hi.
    destruct (lookup_lt_is_Some_2 bs i ltac:(lia)) as [x Hx].
    rewrite Hx. apply Hin. exact Hx. }
  assert (Hrot : OAM p'
                 = drop (Z.to_nat (256 - a)) bs ++ take (Z.to_nat (256 - a)) bs).
  { pose proof Hp' as (_ & Hoam' & _). fold (OAM p') in Hoam'.
    apply list_eq. intros j.
    destruct (decide (j < 256)%nat) as [Hj|Hj].
    - destruct (decide (Z.of_nat j < a)) as [Hlow|Hhigh].
      + rewrite lookup_app_l by (rewrite length_drop; mod256).
        rewrite lookup_drop.
        rewrite <- (Hcell (Z.to_nat (256 - a) + j)%nat) by mod256.
        f_equal. mod256.
      + rewrite lookup_app_r by (rewrite length_drop; mod256).
        rewrite length_drop.
        rewrite lookup_take_lt by mod256.
        rewrite <- (Hcell (j - (length bs - Z.to_nat (256 - a)))%nat)
          by mod256.
        f_equal. mod256.
    - rewrite !lookup_ge_None_2; [reflexivity| |lia].
      rewrite length_app, length_drop, length_take. lia. }
  exists p'. split.
  { rewrite (method_bind_returns _ _ p p0 tt) by reflexivity. exact Hw. }
  split; [exact Hcell|]. split; [exact Hrot|]. split.
  { intros ->. rewrite Hrot. cbn [Z.sub Z.opp Z.add].
    change (Z.to_nat 256) with 256%nat.
    rewrite drop_ge, take_ge by lia. reflexivity. }
  split; [rewrite Ha', Hlen; mod256|].
  split; [|exact get_OAM_data_state].
  intros value q Hq.
  destruct (set_OAM_data_defined value q Hq) as (q' & -> & _ & _ & Hq').
  exact Hq'.
Qed.

Lemma access_typed (a : OAM_access) (p : PPU) :
  OAM_access_typed a ->
  PPU_typed p ->
  exists p', access a p = (Returns tt, p') /\ PPU_typed p'.
Proof.
  intros Ha Hp. destruct a as [b| |b]; cbn [access OAM_access_typed] in *.
  - exists (set_OAM_address b p).2. split; [reflexivity|].
    apply set_OAM_address_typed; assumption.
  - destruct (get_OAM_data_defined p Hp) as (b & Hget & _).
    exists p. split; [|exact Hp].
    rewrite (method_bind_returns _ _ _ _ _ Hget). reflexivity.
  - destruct (set_OAM_data_defined b p Hp) as (p' & Hset & Hp' & _).
    exists p'. split; assumption.
Qed.

Lemma accesses_typed (accesses : list OAM_access) :
  Forall OAM_access_typed accesses ->
  forall p : PPU,
    PPU_typed p ->
    exists p', for_each accesses access p = (Returns tt, p') /\ PPU_typed p'.
Proof.
  induction 1 as [|a accesses Ha _ IH]; intros p Hp.
  - exists p. split; [reflexivity|exact Hp].
  - destruct (access_typed a p Ha Hp) as (p1 & Ha1 & Hp1).
    destruct (IH p1 Hp1) as (p' & Hrest & Hp').
    exists p'. split; [|exact Hp'].
    cbn [for_each]. rewrite (method_bind_returns _ _ _ _ _ Ha1). exact Hrest.
Qed.

(** C10. In every PPU state, the OAM address is a byte and OAM has
    64 * 4 = 256 cells, so the cell [get_OAM_data] reads and the cell
    [set_OAM_data] writes exist; the write leaves the address incremented
    modulo 256, again an index of OAM; and every sequence of accesses through
    the OAM address and data registers runs to its end without an
    out-of-range access. *)
Theorem OAM_access_in_bounds (p : PPU) :
  PPU_typed p ->
  0 <= sprite_data_address p < Z.of_nat (length (OAM p))
  /\ Z.of_nat (length (OAM p)) = 256
  /\ (exists b,
        get_OAM_data p = (Returns b, p)
        /\ OAM p !! Z.to_nat (sprite_data_address p) = Some b)
  /\ (forall value : NES_Byte,
        exists p',
          set_OAM_data value p = (Returns tt, p')
          /\ OAM p' = <[Z.to_nat (sprite_data_address p) := value]> (OAM p)
          /\ sprite_data_address p' = (sprite_data_address p + 1) mod 256
          /\ 0 <= sprite_data_address p' < Z.of_nat (length (OAM p')))
  /\ (forall accesses : list OAM_access,
        Forall OAM_access_typed accesses ->
        exists p',
          for_each accesses access p = (Returns tt, p') /\ PPU_typed p').
Proof.
  intros Hp. pose proof Hp as (Ha & Hoam & _). fold (OAM p) in Hoam.
  split; [mod256|]. split; [exact Hoam|].
  split; [exact (get_OAM_data_defined p Hp)|]. split.
  - intros value.
    destruct (set_OAM_data_defined value p Hp)
      as (p' & Hset & Hp' & Hoam' & Ha').
    exists p'. split; [exact Hset|]. split; [exact Hoam'|].
    split; [exact Ha'|].
    rewrite Hoam', length_insert, Ha'. mod256.
  - intros accesses Htyped. exact (accesses_typed accesses Htyped p Hp).
Qed.

Lemma push_back_typed (sprites : list NES_Byte) :
  Forall operation_typed (map op_push_back sprites).
Proof.
  induction sprites; constructor; [exact I|assumption].
Qed.

Lemma eight_is_size_t : is_size_t 8.
Proof. unfold is_size_t. lia. Qed.

(** C6. The scanline buffer is a [static_vector<NES_Byte, 8>]: whatever
    operations the PPU has performed on it, it holds at most 8 entries, and
    however many sprites are then pushed for a scanline, it still holds at
    most 8: what it held followed by the sprites pushed, cut at its reserved
    size. From an empty buffer reserved to 8 these are the first 8 sprites
    pushed; the 9th and later ones are not stored. None of this writes out
    of bounds. *)
Theorem scanline_sprites_at_most_8
    (p : PPU) (ops : list (operation NES_Byte)) (sprites : list NES_Byte) :
  invariant (scanline_sprites p) ->
  Forall operation_typed ops ->
  let before := perform_all ops (scanline_sprites p) in
  let after := perform_all (map op_push_back sprites) before.2 in
  (length (contents before.2) <= 8)%nat
  /\ current_size after.2 <= 8
  /\ (length (contents after.2) <= 8)%nat
  /\ contents after.2
     = take (Z.to_nat (reserved_size before.2)) (contents before.2 ++ sprites)
  /\ (current_size before.2 = 0 ->
      reserved_size before.2 = 8 ->
      contents after.2 = take 8 sprites)
  /\ Forall (fun c => c <> Undefined) (before.1 ++ after.1).
Proof.
  intros Hinv Hops before after.
  destruct (CommonFacts.perform_all_invariant 8 eight_is_size_t ops Hops
              (scanline_sprites p) Hinv) as [Hinv1 Hdef1].
  fold before in Hinv1, Hdef1.
  destruct (CommonFacts.perform_all_invariant 8 eight_is_size_t
              (map op_push_back sprites) (push_back_typed sprites)
              before.2 Hinv1) as [Hinv2 Hdef2].
  destruct (CommonFacts.push_back_all_contents 8 eight_is_size_t sprites
              before.2 Hinv1) as [Hc _].
  fold after in Hinv2, Hdef2, Hc.
  pose proof Hinv1 as (Hcur1 & Hres1 & _).
  pose proof Hinv2 as (Hcur2 & Hres2 & _).
  split; [unfold contents; rewrite length_take; lia|].
  split; [lia|].
  split; [unfold contents; rewrite length_take; lia|].
  split; [exact Hc|]. split.
  - intros Hempty Hreserved. rewrite Hc, Hreserved.
    unfold contents. rewrite Hempty. reflexivity.
  - apply Forall_app. split; assumption.
Qed.

(** C8. A read of the status register returns the vblank flag in bit 7,
    clears the flag and resets the address-latch toggle; so when the flag is
    set during vertical blank, the first read reports it and a second
    consecutive read reports it cleared, and changes nothing more. *)
Theorem get_status_clears_vblank (p : PPU) :
  exists status1 status2 p1,
    get_status p = (Returns status1, p1)
    /\ get_status p1 = (Returns status2, p1)
    /\ status_vblank status1 = is_vblank p
    /\ is_vblank p1 = false
    /\ is_first_write p1 = true
    /\ status_vblank status2 = false.
Proof.
  destruct p as [cb oam buf st cy sl ev vb z da ta fx fw db sa ss sb hs hb ls
                 it bp sp inc].
  eexists _, _, _. split; [reflexivity|]. split; [reflexivity|].
  cbn [is_vblank is_first_write is_sprite_zero_hit assign_is_vblank
       assign_is_first_write].
  unfold status_vblank. destruct vb, z; repeat split.
Qed.

(** The registers on small inputs. *)

Example OAM_address_wraps :
  let r := for_each [write_OAMADDR 255; write_OAMDATA 7; write_OAMDATA 9;
                     read_OAMDATA] access PPU_zeroed in
  r.1 = Returns tt
  /\ sprite_data_address r.2 = 1
  /\ OAM r.2 !! 255%nat = Some 7
  /\ OAM r.2 !! 0%nat = Some 9
  /\ (get_OAM_data r.2).1 = Returns 0.
Proof. repeat split. Qed.

Example status_read_twice :
  let r1 := get_status (assign_is_vblank true PPU_zeroed) in
  let r2 := get_status r1.2 in
  r1.1 = Returns 128 /\ r2.1 = Returns 0 /\ is_first_write r1.2 = true.
Proof. repeat split. Qed.

Lemma PPU_zeroed_typed : PPU_typed PPU_zeroed.
Proof.
  unfold PPU_typed, is_NES_Byte.
  split; [change (0 <= 0 < 2 ^ 8); lia|split; reflexivity].
Qed.

Lemma OAM_write_256_witness :
  let bs := map Z.of_nat (seq 0 256) in
  PPU_typed PPU_zeroed
  /\ is_NES_Byte 200
  /\ length bs = 256%nat
  /\ exists p',
       (set_OAM_address 200 ;; write_OAM bs) PPU_zeroed = (Returns tt, p')
       /\ OAM p' !! 200%nat = Some 0
       /\ OAM p' !! 255%nat = Some 55
       /\ OAM p' !! 0%nat = Some 56
       /\ OAM p' !! 199%nat = Some 255
       /\ sprite_data_address p' = 200.
Proof.
  intros bs.
  assert (Ha : is_NES_Byte 200) by (unfold is_NES_Byte; lia).
  assert (Hlen : length bs = 256%nat) by reflexivity.
  split; [exact PPU_zeroed_typed|]. split; [exact Ha|]. split; [exact Hlen|].
  destruct (OAM_write_256 200 bs PPU_zeroed PPU_zeroed_typed Ha Hlen)
    as (p' & Hrun & Hcell & _ & _ & Haddr & _).
  exists p'. split; [exact Hrun|].
  split; [exact (Hcell 0%nat ltac:(lia))|].
  split; [exact (Hcell 55%nat ltac:(lia))|].
  split; [exact (Hcell 56%nat ltac:(lia))|].
  split; [exact (Hcell 255%nat ltac:(lia))|exact Haddr].
Defined.

Lemma OAM_access_in_bounds_witness :
  PPU_typed PPU_zeroed
  /\ (exists b,
        get_OAM_data PPU_zeroed = (Returns b, PPU_zeroed)
        /\ OAM PPU_zeroed !! Z.to_nat (sprite_data_address PPU_zeroed) = Some b)
  /\ exists p',
       for_each [write_OAMADDR 255; write_OAMDATA 1; write_OAMDATA 2;
                 read_OAMDATA] access PPU_zeroed
       = (Returns tt, p')
       /\ PPU_typed p'.
Proof.
  split; [exact PPU_zeroed_typed|].
  destruct (OAM_access_in_bounds PPU_zeroed PPU_zeroed_typed)
    as (_ & _ & Hget & _ & Hall).
  split; [exact Hget|].
  apply Hall. repeat constructor; unfold is_NES_Byte; lia.
Defined.

Lemma scanline_sprites_at_most_8_witness :
  let ops := [op_push_back 3; op_reserve 8; op_resize 0] in
  let sprites := [10; 11; 12; 13; 14; 15; 16; 17; 18; 19] in
  invariant (scanline_sprites PPU_zeroed)
  /\ Forall operation_typed ops
  /\ contents
       (perform_all (map op_push_back sprites)
          (perform_all ops (scanline_sprites PPU_zeroed)).2).2
     = [10; 11; 12; 13; 14; 15; 16; 17].
Proof.
  intros ops sprites.
  assert (Hinv : invariant (scanline_sprites PPU_zeroed))
    by exact (CommonFacts.invariant_new 8 eight_is_size_t).
  assert (Hops : Forall operation_typed ops)
    by (repeat constructor; unfold is_size_t; lia).
  split; [exact Hinv|]. split; [exact Hops|].
  destruct (scanline_sprites_at_most_8 PPU_zeroed ops sprites Hinv Hops)
    as (_ & _ & _ & _ & Hfirst & _).
  exact (Hfirst eq_refl eq_refl).
Defined.

(** *** Further properties of the OAM registers *)

Lemma for_each_app {S A} (xs ys : list A) (body : A -> method S unit) (s : S) :
  for_each (xs ++ ys) body s = (for_each xs body ;; for_each ys body) s.
Proof.
  revert s. induction xs as [|x xs IH]; intros s.
  - reflexivity.
  - cbn [app for_each]. unfold mbind, method_bind in *.
    destruct (body x s) as [[[]|e|] s1]; [|reflexivity|reflexivity].
    exact (IH s1).
Qed.

(** Any number of writes through the OAM data register runs to its end. *)
Lemma write_OAM_defined (bs : list NES_Byte) :
  forall p : PPU,
    PPU_typed p ->
    exists p',
      write_OAM bs p = (Returns tt, p')
      /\ PPU_typed p'
      /\ sprite_data_address p'
         = (sprite_data_address p + Z.of_nat (length bs)) mod 256.
Proof.
  induction bs as [|b bs IH]; intros p Hp.
  - exists p. pose proof Hp as (Ha & _).
    split; [reflexivity|]. split; [exact Hp|]. cbn [length]. mod256.
  - destruct (set_OAM_data_defined b p Hp) as (p1 & Hset & Hp1 & _ & Ha1).
    destruct (IH p1 Hp1) as (p' & Hw & Hp' & Ha').
    pose proof Hp as (Ha & _).
    exists p'. split.
    { unfold write_OAM in *. cbn [for_each].
      rewrite (method_bind_returns _ _ _ _ _ Hset). exact Hw. }
    split; [exact Hp'|]. rewrite Ha', Ha1. cbn [length]. mod256.
Qed.

(** X4. A byte written through the OAM data register is read back through
    it once the OAM address register is set to the same address again. Read
    without setting the address again, the data register gives the next
    cell, which the write did not change. *)
Theorem OAM_write_then_read (a value : NES_Byte) (p : PPU) :
  PPU_typed p ->
  is_NES_Byte a ->
  (exists p',
     (set_OAM_address a ;; set_OAM_data value ;; set_OAM_address a ;;
      get_OAM_data) p = (Returns value, p')
     /\ sprite_data_address p' = a)
  /\ (exists p' next,
        (set_OAM_address a ;; set_OAM_data value ;; get_OAM_data) p
        = (Returns next, p')
        /\ OAM p !! Z.to_nat ((a + 1) mod 256) = Some next).
Proof.
  intros Hp Ha.
  destruct (set_OAM_address_typed a p Ha Hp) as (Hp0 & Ha0 & Hoam0).
  set (p0 := (set_OAM_address a p).2) in *.
  destruct (set_OAM_data_defined value p0 Hp0) as (p1 & Hset & Hp1 & Hoam1 & Ha1).
  rewrite Ha0 in Hoam1, Ha1. rewrite Hoam0 in Hoam1.
  pose proof Hp as (_ & Hlen & _). fold (OAM p) in Hlen.
  split.
  - destruct (set_OAM_address_typed a p1 Ha Hp1) as (Hp2 & Ha2 & Hoam2).
    set (p2 := (set_OAM_address a p1).2) in *.
    destruct (get_OAM_data_defined p2 Hp2) as (b & Hget & Hb).
    rewrite Ha2, Hoam2, Hoam1, list_lookup_insert_eq in Hb by mod256.
    injection Hb as <-.
    exists p2. split; [|exact Ha2].
    rewrite (method_bind_returns _ _ p p0 tt) by reflexivity.
    rewrite (method_bind_returns _ _ _ _ _ Hset).
    rewrite (method_bind_returns _ _ p1 p2 tt) by reflexivity.
    exact Hget.
  - destruct (get_OAM_data_defined p1 Hp1) as (b & Hget & Hb).
    rewrite Ha1, Hoam1, list_lookup_insert_ne in Hb.
    + exists p1, b. split; [|exact Hb].
      rewrite (method_bind_returns _ _ p p0 tt) by reflexivity.
      rewrite (method_bind_returns _ _ _ _ _ Hset). exact Hget.
    + intros Heq. apply Z2Nat.inj in Heq; mod256.
Qed.

(** X6. However many bytes are written through the OAM data register, the
    writes run to their end, the OAM address advances by their number modulo
    256, and OAM keeps the last 256 of them: each of these sits in the cell
    at its own address modulo 256, the earlier bytes being overwritten. *)
Theorem write_OAM_keeps_last_256 (bs : list NES_Byte) (p : PPU) :
  PPU_typed p ->
  Forall is_NES_Byte bs ->
  exists p',
    write_OAM bs p = (Returns tt, p')
    /\ sprite_data_address p'
       = (sprite_data_address p + Z.of_nat (length bs)) mod 256
    /\ forall (i : nat) (x : NES_Byte),
         bs !! i = Some x ->
         (length bs <= i + 256)%nat ->
         OAM p' !! Z.to_nat ((sprite_data_address p + Z.of_nat i) mod 256)
         = Some x.
Proof.
  intros Hp _. set (k := (length bs - 256)%nat).
  destruct (write_OAM_defined (take k bs) p Hp) as (p1 & Hw1 & Hp1 & Ha1).
  destruct (write_OAM_spec (drop k bs) p1 Hp1) as (p' & Hw2 & Hp' & Ha' & Hin & _).
  { rewrite length_drop. lia. }
  rewrite length_take in Ha1. rewrite length_drop in Ha'.
  pose proof Hp as (Ha & _).
  exists p'. split.
  { rewrite <- (take_drop k bs) at 1. unfold write_OAM in *.
    rewrite for_each_app, (method_bind_returns _ _ _ _ _ Hw1). exact Hw2. }
  split.
  { rewrite Ha', Ha1. unfold k. mod256. }
  intros i x Hi Hlast.
  assert (Hik : (k <= i)%nat) by (unfold k; lia).
  specialize (Hin (i - k)%nat x).
  rewrite lookup_drop in Hin.
  replace (k + (i - k))%nat with i in Hin by lia.
  rewrite <- (Hin Hi). f_equal. rewrite Ha1. unfold k. mod256.
Qed.

(** [p'] is [p] but for the cells of OAM and the OAM address. *)
#[local] Abbreviation only_OAM_changed p p' :=
  (p' = assign_sprite_data_address (sprite_data_address p')
          (assign_sprite_memory
             {| elems := OAM p';
                current_size := current_size (sprite_memory p);
                reserved_size := reserved_size (sprite_memory p) |} p)).

Lemma only_OAM_changed_refl (p : PPU) : only_OAM_changed p p.
Proof. destruct p as [? [? ? ?]]; reflexivity. Qed.

Lemma only_OAM_changed_trans (p p1 p2 : PPU) :
  only_OAM_changed p p1 -> only_OAM_changed p1 p2 -> only_OAM_changed p p2.
Proof.
  destruct p as [? [? ? ?]], p1 as [? [? ? ?]], p2 as [? [? ? ?]].
  cbv [assign_sprite_data_address assign_sprite_memory OAM
       sprite_data_address sprite_memory elems current_size reserved_size].
  intros H1 H2. injection H1 as ->. intros; subst.
  injection H2 as ->. intros; subst. reflexivity.
Qed.

Lemma access_frame (a : OAM_access) (p : PPU) :
  OAM_access_typed a ->
  PPU_typed p ->
  exists p',
    access a p = (Returns tt, p') /\ PPU_typed p' /\ only_OAM_changed p p'.
Proof.
  intros Ha Hp.
  destruct (access_typed a p Ha Hp) as (p' & Hacc & Hp').
  exists p'. split; [exact Hacc|]. split; [exact Hp'|].
  destruct a as [b| |b]; cbn [access] in Hacc.
  - injection Hacc as <-. destruct p as [? [? ? ?]]; reflexivity.
  - destruct (get_OAM_data_defined p Hp) as (b & Hget & _).
    rewrite (method_bind_returns _ _ _ _ _ Hget) in Hacc.
    injection Hacc as <-. apply only_OAM_changed_refl.
  - unfold set_OAM_data, store_elem in Hacc.
    destruct (array_store (sprite_data_address p) b (elems (sprite_memory p)));
      cbn [mbind option_bind] in Hacc; [|discriminate].
    injection Hacc as <-. destruct p as [? [? ? ?]]; reflexivity.
Qed.

(** X5. Accesses through the OAM address and data registers change the
    cells of OAM and the OAM address and nothing else of the PPU: after any
    sequence of them the length state of [sprite_memory] (element access
    never moves [current_size], so the range [begin(), end())] of OAM does
    not grow with the bytes written), the scanline buffer, the flags and the
    interrupt callback are what they were. *)
Theorem OAM_accesses_frame (accesses : list OAM_access) (p : PPU) :
  Forall OAM_access_typed accesses ->
  PPU_typed p ->
  exists p',
    for_each accesses access p = (Returns tt, p')
    /\ only_OAM_changed p p'
    /\ current_size (sprite_memory p') = current_size (sprite_memory p)
    /\ reserved_size (sprite_memory p') = reserved_size (sprite_memory p)
    /\ length (contents (sprite_memory p'))
       = length (contents (sprite_memory p))
    /\ scanline_sprites p' = scanline_sprites p
    /\ is_vblank p' = is_vblank p
    /\ is_first_write p' = is_first_write p
    /\ vblank_callback p' = vblank_callback p.
Proof.
  intros Htyped Hp.
  assert (Hframe : exists p',
             for_each accesses access p = (Returns tt, p')
             /\ PPU_typed p' /\ only_OAM_changed p p').
  { revert p Hp. induction Htyped as [|a accesses Ha _ IH]; intros p Hp.
    - exists p. split; [reflexivity|]. split; [exact Hp|].
      apply only_OAM_changed_refl.
    - destruct (access_frame a p Ha Hp) as (p1 & Ha1 & Hp1 & Hf1).
      destruct (IH p1 Hp1) as (p' & Hrest & Hp' & Hf').
      exists p'. split.
      { cbn [for_each]. rewrite (method_bind_returns _ _ _ _ _ Ha1).
        exact Hrest. }
      split; [exact Hp'|].
      exact (only_OAM_changed_trans p p1 p' Hf1 Hf'). }
  destruct Hframe as (p' & Hrun & Hp' & Hf).
  exists p'. split; [exact Hrun|]. split; [exact Hf|].
  pose proof Hp as (_ & Hlen & _). pose proof Hp' as (_ & Hlen' & _).
  assert (Hcs : current_size (sprite_memory p')
                = current_size (sprite_memory p)).
  { rewrite Hf. destruct p as [? [? ? ?]]; reflexivity. }
  split; [exact Hcs|].
  split; [rewrite Hf; destruct p as [? [? ? ?]]; reflexivity|].
  split.
  { unfold contents. rewrite !length_take, Hcs. lia. }
  repeat split; rewrite Hf; destruct p as [? [? ? ?]]; reflexivity.
Qed.

Lemma OAM_write_then_read_witness :
  PPU_typed PPU_zeroed
  /\ is_NES_Byte 255
  /\ exists p',
       (set_OAM_address 255 ;; set_OAM_data 42 ;; set_OAM_address 255 ;;
        get_OAM_data) PPU_zeroed = (Returns 42, p')
       /\ sprite_data_address p' = 255.
Proof.
  assert (Ha : is_NES_Byte 255) by (unfold is_NES_Byte; lia).
  split; [exact PPU_zeroed_typed|]. split; [exact Ha|].
  exact (proj1 (OAM_write_then_read 255 42 PPU_zeroed PPU_zeroed_typed Ha)).
Defined.

Lemma OAM_accesses_frame_witness :
  let accesses := [write_OAMADDR 254; write_OAMDATA 1; write_OAMDATA 2;
                   write_OAMDATA 3; read_OAMDATA] in
  Forall OAM_access_typed accesses
  /\ PPU_typed PPU_zeroed
  /\ exists p',
       for_each accesses access PPU_zeroed = (Returns tt, p')
       /\ current_size (sprite_memory p') = 0
       /\ scanline_sprites p' = scanline_sprites PPU_zeroed.
Proof.
  intros accesses.
  assert (Ht : Forall OAM_access_typed accesses)
    by (repeat constructor; unfold is_NES_Byte; lia).
  split; [exact Ht|]. split; [exact PPU_zeroed_typed|].
  destruct (OAM_accesses_frame accesses PPU_zeroed Ht PPU_zeroed_typed)
    as (p' & Hrun & _ & Hcs & _ & _ & Hbuf & _).
  exists p'. split; [exact Hrun|]. split; [exact Hcs|exact Hbuf].
Defined.

(** 300 bytes, the byte written at step [i] being [i / 2]: the last 44
    overwrite cells 0 to 43, cells 44 to 255 keep the bytes of the first
    round. *)
Lemma write_OAM_keeps_last_256_witness :
  PPU_typed PPU_zeroed
  /\ Forall is_NES_Byte (map (fun i => Z.of_nat (i / 2)) (seq 0 300))
  /\ exists p',
       write_OAM (map (fun i => Z.of_nat (i / 2)) (seq 0 300)) PPU_zeroed
       = (Returns tt, p')
       /\ sprite_data_address p' = 44
       /\ OAM p' !! 43%nat = Some 149
       /\ OAM p' !! 44%nat = Some 22.
Proof.
  assert (Hbytes :
            Forall is_NES_Byte (map (fun i => Z.of_nat (i / 2)) (seq 0 300))).
  { apply List.Forall_forall. intros x Hx.
    apply List.in_map_iff in Hx as (i & <- & Hi).
    apply List.in_seq in Hi. unfold is_NES_Byte.
    assert (i / 2 < 150)%nat by (apply Nat.Div0.div_lt_upper_bound; lia).
    lia. }
  split; [exact PPU_zeroed_typed|]. split; [exact Hbytes|].
  destruct (write_OAM_keeps_last_256 _ PPU_zeroed PPU_zeroed_typed Hbytes)
    as (p' & Hrun & Ha & Hlast).
  exists p'. split; [exact Hrun|]. split; [exact Ha|].
  split.
  - exact (Hlast 299%nat 149 eq_refl ltac:(cbn; lia)).
  - exact (Hlast 44%nat 22 eq_refl ltac:(cbn; lia)).
Defined.

End PpuFacts.
